(** * The jokes API: request handlers over an in-memory list of jokes

    A shallow embedding of the request handlers of the Express application:
    the module that declares [originalJokesList], [allJokes] and
    [nextJokeId] and one handler per route, and the /jokes/first handler
    of the older copy of that module kept under [src/index.js].

    The three module-level bindings become the fields of a record that
    every handler receives and returns.  A handler either sends one
    response or throws; Express catches what a synchronous handler throws
    and goes on serving, so a throw leaves the bindings as they were at
    that point.

    Conventions of the model:
    - a JavaScript number is a double; the ones the handlers compute have
      an integer value or are infinite: the id counter, which stays far
      below 2^53 where doubles are exact, and the result of [parseInt],
      which is rounded to the nearest double.  A number inside a joke is
      an integer of [Z]; a JSON number that is not one (a fraction, or a
      literal past the largest double, which reads as infinite) has no
      counterpart here;
    - a JavaScript object is a finite map from property names to values;
      the order in which properties are listed is not modelled;
    - a string is a sequence of code units, limited to those below 256;
    - jokes are never changed once they are in an array: the handlers
      change the array [allJokes] ([push], [splice], [length = 0]) or
      rebind it to a copy [[...originalJokesList]], and write properties
      only into the request body before it is pushed.  So the sharing of
      joke objects between [originalJokesList] and [allJokes] cannot be
      observed, and both are plain lists;
    - the clock ([new Date()]) and the choice made by [lodash.sample] are
      inputs of the request. *)

From Stdlib Require Import ZArith String Ascii List Lia Sorted.
From Stdlib Require Import Decimal DecimalString DecimalPos DecimalZ.
From stdpp Require Import base option list gmap strings.

Local Open Scope string_scope.
Local Open Scope Z_scope.
Local Open Scope list_scope.

(** ** JavaScript values *)

#[local] Set Warnings "-register-all".

Inductive JsValue : Type :=
| JUndefined
| JNull
| JBool (b : bool)
| JNum (n : Z)
| JStr (s : string)
| JArr (l : list JsValue)
| JObj (o : gmap string JsValue).

(** A joke, and every JSON object: property name to value. *)
Abbreviation JsObject := (gmap string JsValue).

(** [o.k]: a missing property reads as [undefined]. *)
Definition get_prop (o : JsObject) (k : string) : JsValue :=
  match o !! k with
  | Some v => v
  | None => JUndefined
  end.

(** What [parseInt] returns: [NaN], a double with an integer value, or
    an infinite one. *)
Inductive JsNumber : Type :=
| NaN
| Int (n : Z)
| Infinity (negative : bool).

(** [v === n] for a value [v] and a number [n]: only a number equals a
    number, [NaN] equals nothing, and no integer is infinite. *)
Definition strict_equals (v : JsValue) (n : JsNumber) : bool :=
  match v, n with
  | JNum m, Int n => Z.eqb m n
  | _, _ => false
  end.

(** [v === s] for a value [v] and a string [s]. *)
Definition strict_equals_str (v : JsValue) (s : string) : bool :=
  match v with
  | JStr t => String.eqb t s
  | _ => false
  end.

(** ** Strings: [String.prototype.includes] *)

(** [starts_with t s]: [t] is a prefix of [s]. *)
Fixpoint starts_with (t s : string) : bool :=
  match t, s with
  | EmptyString, _ => true
  | String a t', String b s' => Ascii.eqb a b && starts_with t' s'
  | String _ _, EmptyString => false
  end.

(** [s.includes(t)]: [t] occurs in [s] at some position, compared code
    unit by code unit. *)
Fixpoint str_includes (s t : string) : bool :=
  starts_with t s ||
  match s with
  | EmptyString => false
  | String _ s' => str_includes s' t
  end.

(** ** Numbers: [parseInt] with no radix argument *)

(** The white space [parseInt] skips, among the code units below 256:
    TAB, LF, VT, FF, CR, SP and NBSP. *)
Definition is_white_space (c : ascii) : bool :=
  let n := nat_of_ascii c in
  ((9 <=? n) && (n <=? 13) || (n =? 32) || (n =? 160))%nat.

Fixpoint trim_start (s : string) : string :=
  match s with
  | String c s' => if is_white_space c then trim_start s' else s
  | EmptyString => s
  end.

(** The value of a code unit as a digit: [0-9], then [a-z] or [A-Z] from
    ten on. *)
Definition digit_value (c : ascii) : option Z :=
  let n := Z.of_nat (nat_of_ascii c) in
  if (48 <=? n) && (n <=? 57) then Some (n - 48)
  else if (97 <=? n) && (n <=? 122) then Some (n - 87)
  else if (65 <=? n) && (n <=? 90) then Some (n - 55)
  else None.

(** The digits of the longest prefix of [s] made of radix-[R] digits. *)
Fixpoint radix_digits (R : Z) (s : string) : list Z :=
  match s with
  | String c s' =>
      match digit_value c with
      | Some d => if d <? R then d :: radix_digits R s' else []
      | None => []
      end
  | EmptyString => []
  end.

Definition digits_value (R : Z) (ds : list Z) : Z :=
  fold_left (fun acc d => acc * R + d) ds 0.

(** Sign, then an optional [0x] or [0X] that switches to radix 16. *)
Definition strip_sign (s : string) : Z * string :=
  match s with
  | String "-" s' => (-1, s')
  | String "+" s' => (1, s')
  | _ => (1, s)
  end.

Definition strip_prefix (s : string) : Z * string :=
  match s with
  | String "0" (String "x" s') => (16, s')
  | String "0" (String "X" s') => (16, s')
  | _ => (10, s)
  end.

(** The double nearest to the integer [n], ties going to the even
    significand of 53 bits; what rounds to 2^1024 or beyond is infinite. *)
Definition round_to_double (n : Z) : JsNumber :=
  let a := Z.abs n in
  if a <? 2 ^ 53 then Int n
  else
    let e := Z.log2 a - 52 in
    let q := a / 2 ^ e in
    let r := a mod 2 ^ e in
    let half := 2 ^ (e - 1) in
    let q' := if (half <? r) || ((r =? half) && Z.odd q) then q + 1 else q in
    let m := q' * 2 ^ e in
    if 2 ^ 1024 <=? m then Infinity (n <? 0) else Int (Z.sgn n * m).

(** The digits give an integer, and the result is the double nearest to
    it.  (For more than twenty decimal digits the language lets an
    engine drop the digits after the twentieth before rounding; the
    rounding here is the exact one.) *)
Definition parseInt (input : string) : JsNumber :=
  let '(sign, s1) := strip_sign (trim_start input) in
  let '(R, s2) := strip_prefix s1 in
  match radix_digits R s2 with
  | [] => NaN
  | ds => round_to_double (sign * digits_value R ds)
  end.

(** [Number.isNaN]. *)
Definition isNaN (n : JsNumber) : bool :=
  match n with
  | NaN => true
  | Int _ | Infinity _ => false
  end.

(** [ToBoolean]: what [!v] and [if (v)] look at. *)
Definition to_boolean (v : JsValue) : bool :=
  match v with
  | JUndefined | JNull => false
  | JBool b => b
  | JNum n => negb (n =? 0)
  | JStr s => negb (String.eqb s "")
  | JArr _ | JObj _ => true
  end.

(** ** Arrays *)

(** [l[i]]: [undefined] out of range. *)
Definition js_index (l : list JsObject) (i : nat) : JsValue :=
  match l !! i with
  | Some j => JObj j
  | None => JUndefined
  end.

(** [l.findIndex(p)]: the index of the first element that satisfies [p],
    or -1. *)
Fixpoint findIndex_from (p : JsObject → bool) (l : list JsObject) (k : Z) : Z :=
  match l with
  | [] => -1
  | j :: l' => if p j then k else findIndex_from p l' (k + 1)
  end.

Definition findIndex (p : JsObject → bool) (l : list JsObject) : Z :=
  findIndex_from p l 0.

(** [l.find(p)]: the first element that satisfies [p], or [undefined]. *)
Definition js_find (p : JsObject → bool) (l : list JsObject) : JsValue :=
  match List.find p l with
  | Some j => JObj j
  | None => JUndefined
  end.

(** [l.splice(i, 1)] for an index [i] that is not negative. *)
Definition splice1 (l : list JsObject) (i : Z) : list JsObject :=
  delete (Z.to_nat i) l.

(** ** Completions: a value, or a thrown error *)

Inductive JsError : Type :=
| TypeError (msg : string).

Inductive Completion (A : Type) : Type :=
| Normal (a : A)
| Throw (e : JsError).

Arguments Normal {A} a.
Arguments Throw {A} e.

(** Sequencing: a throw skips what follows. *)
#[global] Instance completion_ret : MRet Completion := fun A a => Normal a.

#[global] Instance completion_bind : MBind Completion := fun A B k c =>
  match c with
  | Normal a => k a
  | Throw e => Throw e
  end.

(** [l.filter(p)] where evaluating [p] may throw: elements are visited in
    order and the first throw ends the call. *)
Fixpoint js_filter (p : JsObject → Completion bool) (l : list JsObject)
  : Completion (list JsObject) :=
  match l with
  | [] => Normal (@nil JsObject)
  | j :: l' =>
      b ← p j;
      rest ← js_filter p l';
      mret (if b : bool then j :: rest else rest)
  end.

(** [v.includes(t)] for a string [t].  A string looks for a substring; an
    array looks for an element equal to [t]; [undefined] and [null] have
    no properties, and no other JSON value has a method of that name. *)
Definition call_includes (v : JsValue) (t : string) : Completion bool :=
  match v with
  | JStr s => Normal (str_includes s t)
  | JArr l => Normal (existsb (fun x => strict_equals_str x t) l)
  | JUndefined =>
      Throw (TypeError "Cannot read properties of undefined (reading 'includes')")
  | JNull =>
      Throw (TypeError "Cannot read properties of null (reading 'includes')")
  | JBool _ | JNum _ | JObj _ =>
      Throw (TypeError "includes is not a function")
  end.

(** [j.setup.includes(t) || j.punchline.includes(t)]: the right operand
    is evaluated only when the left one is false. *)
Definition joke_matches (t : string) (j : JsObject) : Completion bool :=
  b ← call_includes (get_prop j "setup") t;
  if b : bool then mret true else call_includes (get_prop j "punchline") t.

(** ** Query values

    What the query parser puts under a name of [req.query]: a string, an
    array (a name given more than once, or with brackets), or an object
    (a name with keys in brackets), whose properties are such values
    again.  A property of an object may have any name, [toString]
    included: the parser Express 4 installs by default keeps such
    names.  (The default parser of Express 5 gives strings and arrays of
    strings only, which are among these values.) *)

Inductive QueryValue : Type :=
| QStr (s : string)
| QArr (l : list QueryValue)
| QObj (o : list (string * QueryValue)).

Definition has_key (k : string) (o : list (string * QueryValue)) : bool :=
  existsb (fun kv => String.eqb (fst kv) k) o.

(** [v.toString()], and the conversion of an element when an array is
    joined.  A string is itself; an array is its elements, converted and
    joined by commas; an object is ["[object Object]"], unless it has a
    property named [toString] of its own: that property is a query
    value, not a function, and the call throws. *)
Fixpoint query_toString (v : QueryValue) : Completion string :=
  match v with
  | QStr s => Normal s
  | QArr l =>
      (fix join (l : list QueryValue) : Completion string :=
         match l with
         | [] => Normal ""
         | [x] => query_toString x
         | x :: l' =>
             a ← query_toString x;
             b ← join l';
             mret (a +:+ "," +:+ b)
         end) l
  | QObj o =>
      if has_key "toString" o
      then Throw (TypeError "req.query.searchTerm?.toString is not a function")
      else Normal "[object Object]"
  end.

(** ** Requests, responses and the module-level bindings *)

Inductive Payload : Type :=
| Text (s : string)     (* res.send(s) *)
| Json (v : JsValue).   (* res.json(v) *)

Record Response : Type := mkResponse {
  status : Z;
  payload : Payload
}.

(** What came of running a handler: the response it sent, or the error it
    threw before sending one. *)
Inductive Outcome : Type :=
| Sent (r : Response)
| Crashed (e : JsError).

Record Server : Type := mkServer {
  originalJokesList : list JsObject;
  allJokes : list JsObject;
  nextJokeId : Z
}.

(** The bindings when the module has been loaded: [allJokes] is a copy of
    the bundled data and the counter is at its seed. *)
Definition init (seed : list JsObject) : Server :=
  {| originalJokesList := seed; allJokes := seed; nextJokeId := 10000000 |}.

(** [req.body] after the JSON body parser: absent, [null], or the object
    the client sent.  The parser hands over objects and arrays only; an
    array as body is not modelled. *)
Inductive Body : Type :=
| NoBody
| NullBody
| ObjectBody (o : JsObject).

Definition failure (message : string) : JsObject :=
  {[ "outcome" := JStr "failure"; "message" := JStr message ]}.

Definition success (message : string) : JsObject :=
  {[ "outcome" := JStr "success"; "message" := JStr message ]}.

Definition arrayOf (l : list JsObject) : JsValue := JArr (JObj <$> l).

(** ** The handlers, one per route *)

Definition respond (code : Z) (p : Payload) (s : Server) : Outcome * Server :=
  (Sent (mkResponse code p), s).

(** GET / *)
Definition handleRoot (s : Server) : Outcome * Server :=
  respond 200
    (Text "Hello - this is a jokes API server.  Try /jokes or /jokes/random or /api-docs for documentation.")
    s.

(** GET /time; [now] is what [new Date()] prints. *)
Definition handleGetTime (now : string) (s : Server) : Outcome * Server :=
  respond 200 (Text now) s.

(** GET /jokes *)
Definition handleGetAllJokes (s : Server) : Outcome * Server :=
  respond 200 (Json (arrayOf (allJokes s))) s.

(** GET /jokes/first *)
Definition handleGetFirstJoke (s : Server) : Outcome * Server :=
  if (0 <? length (allJokes s))%nat
  then respond 200 (Json (js_index (allJokes s) 0)) s
  else respond 404 (Json (JObj (failure "no jokes in database"))) s.

(** DELETE /jokes/:id; [id] is [req.params.id]. *)
Definition handleDeleteJoke (id : option string) (s : Server) : Outcome * Server :=
  match id with
  | None => respond 404 (Text "missing id") s
  | Some soughtId =>
      let indexOfJokeToDelete :=
        findIndex (fun j => strict_equals (get_prop j "id") (parseInt soughtId))
                  (allJokes s) in
      if indexOfJokeToDelete <? 0
      then respond 404 (Json (JObj (failure "joke not found"))) s
      else
        let jokeToDelete := js_index (allJokes s) (Z.to_nat indexOfJokeToDelete) in
        respond 200 (Json jokeToDelete)
          {| originalJokesList := originalJokesList s;
             allJokes := splice1 (allJokes s) indexOfJokeToDelete;
             nextJokeId := nextJokeId s |}
  end.

(** DELETE /jokes *)
Definition handleDeleteAllJokes (s : Server) : Outcome * Server :=
  respond 200 (Json (JObj (success "all jokes deleted")))
    {| originalJokesList := originalJokesList s;
       allJokes := [];
       nextJokeId := nextJokeId s |}.

(** [req.query.searchTerm?.toString()]: [undefined] for a value that is
    absent, and otherwise what [toString] gives or throws. *)
Definition optional_toString (q : option QueryValue) : Completion JsValue :=
  match q with
  | Some v => t ← query_toString v; mret (JStr t)
  | None => Normal JUndefined
  end.

(** GET /jokes/search; [q] is [req.query.searchTerm].  The term is
    [undefined] or a string, and [!searchTerm] holds of [undefined] and
    of the empty string. *)
Definition handleJokesSearch (q : option QueryValue) (s : Server) : Outcome * Server :=
  match optional_toString q with
  | Throw e => (Crashed e, s)
  | Normal (JStr searchTerm) =>
      if negb (to_boolean (JStr searchTerm))
      then respond 400 (Text "missing searchTerm query parameter") s
      else
        match js_filter (joke_matches searchTerm) (allJokes s) with
        | Normal foundJokes => respond 200 (Json (arrayOf foundJokes)) s
        | Throw e => (Crashed e, s)
        end
  | Normal _ => respond 400 (Text "missing searchTerm query parameter") s
  end.

(** GET /jokes/random; [r] is the draw of [lodash.sample], which picks an
    index below the length and gives [undefined] for an empty array. *)
Definition sample (r : nat) (l : list JsObject) : JsValue :=
  js_index l (r `mod` length l)%nat.

Definition handleRequestForRandomJoke (r : nat) (s : Server) : Outcome * Server :=
  let chosenJoke := sample r (allJokes s) in
  respond 200 (Json (JArr [chosenJoke])) s.

(** A number as it stands in a JSON response: one that is not finite is
    written as [null]. *)
Definition number_value (n : JsNumber) : JsValue :=
  match n with
  | Int n => JNum n
  | NaN | Infinity _ => JNull
  end.

(** GET /jokes/:id; [id] is [req.params.id], and [id ?? ""] puts the
    empty string for a missing one. *)
Definition handleGetJokeById (id : option string) (s : Server) : Outcome * Server :=
  let soughtId := parseInt (default "" id) in
  if isNaN soughtId
  then respond 400 (Json (JObj (failure "missing id to search for."))) s
  else
    let foundJoke :=
      js_find (fun j => strict_equals (get_prop j "id") soughtId) (allJokes s) in
    if negb (to_boolean foundJoke)
    then
      respond 404
        (Json (JObj (<["soughtId" := number_value soughtId]>
                       (failure "can't find joke with that id."))))
        s
    else respond 200 (Json foundJoke) s.

(** POST /jokes; [now] is what [new Date() + ""] gives. *)
Definition handleRequestForPOSTJoke (body : Body) (now : string) (s : Server)
  : Outcome * Server :=
  match body with
  | NoBody | NullBody =>
      respond 400 (Text "where is your joke! it's not in the body, i think") s
  | ObjectBody newJoke =>
      let id := nextJokeId s in
      let newJoke := <["id" := JNum id]> newJoke in
      let newJoke := <["timestamp" := JStr now]> newJoke in
      respond 201 (Json (JObj newJoke))
        {| originalJokesList := originalJokesList s;
           allJokes := allJokes s ++ [newJoke];
           nextJokeId := nextJokeId s + 1 |}
  end.

(** POST /jokes/reset: [allJokes = [...originalJokesList]]. *)
Definition handleReset (s : Server) : Outcome * Server :=
  respond 200 (Json (JObj (success "jokes list has been reset")))
    {| originalJokesList := originalJokesList s;
       allJokes := originalJokesList s;
       nextJokeId := nextJokeId s |}.

(** ** The routes *)

Inductive Request : Type :=
| GET_root
| GET_time (now : string)
| GET_jokes
| GET_jokes_first
| DELETE_jokes_id (id : option string)
| DELETE_jokes
| GET_jokes_search (searchTerm : option QueryValue)
| GET_jokes_random (r : nat)
| GET_jokes_id (id : option string)
| POST_jokes (body : Body) (now : string)
| POST_jokes_reset.

Definition handle (req : Request) (s : Server) : Outcome * Server :=
  match req with
  | GET_root => handleRoot s
  | GET_time now => handleGetTime now s
  | GET_jokes => handleGetAllJokes s
  | GET_jokes_first => handleGetFirstJoke s
  | DELETE_jokes_id id => handleDeleteJoke id s
  | DELETE_jokes => handleDeleteAllJokes s
  | GET_jokes_search q => handleJokesSearch q s
  | GET_jokes_random r => handleRequestForRandomJoke r s
  | GET_jokes_id id => handleGetJokeById id s
  | POST_jokes body now => handleRequestForPOSTJoke body now s
  | POST_jokes_reset => handleReset s
  end.

(** Requests are served one at a time, each on the bindings the previous
    one left. *)
Fixpoint serve (reqs : list Request) (s : Server) : list Outcome * Server :=
  match reqs with
  | [] => ([], s)
  | req :: reqs' =>
      let '(out, s1) := handle req s in
      let '(outs, s2) := serve reqs' s1 in
      (out :: outs, s2)
  end.

Definition state_after (reqs : list Request) (seed : list JsObject) : Server :=
  snd (serve reqs (init seed)).

Definition outcomes (reqs : list Request) (seed : list JsObject) : list Outcome :=
  fst (serve reqs (init seed)).

(** ** Reading responses *)

Definition status_of (out : Outcome) : option Z :=
  match out with
  | Sent r => Some (status r)
  | Crashed _ => None
  end.

(** The joke a response carries as its JSON body, if it carries one. *)
Definition joke_of (out : Outcome) : option JsObject :=
  match out with
  | Sent {| payload := Json (JObj j) |} => Some j
  | _ => None
  end.

(** The integer under [id] in an object. *)
Definition id_of (j : JsObject) : option Z :=
  match j !! "id" with
  | Some (JNum n) => Some n
  | _ => None
  end.

(** The id a response announces as newly assigned: the [id] of the joke
    in a 201 response. *)
Definition assigned_id (out : Outcome) : option Z :=
  match status_of out with
  | Some code => if code =? 201 then j ← joke_of out; id_of j else None
  | None => None
  end.

(** The ids assigned while [reqs] is served from the start, in the order
    of the requests. *)
Definition assigned_ids (reqs : list Request) (seed : list JsObject) : list Z :=
  omap assigned_id (outcomes reqs seed).

(** [len] consecutive integers from [n] on. *)
Fixpoint count_from (n : Z) (len : nat) : list Z :=
  match len with
  | O => []
  | S len' => n :: count_from (n + 1) len'
  end.

(** [j] has the number [n] as its [id]: what [j.id === n] tests. *)
Definition has_id (n : Z) (j : JsObject) : Prop := j !! "id" = Some (JNum n).

(** ** Vocabulary of the statements *)

(** [t] occurs in [s]: [s] is some text, then [t], then some text. *)
Definition substring_of (t s : string) : Prop :=
  ∃ before after : string, s = before +:+ t +:+ after.

(** [j] has a string under [setup] and a string under [punchline], as the
    documented schema requires of a joke. *)
Definition has_texts (j : JsObject) : Prop :=
  ∃ setup punchline : string,
    j !! "setup" = Some (JStr setup) ∧ j !! "punchline" = Some (JStr punchline).

(** The setup or the punchline of [j] is a string in which [t] occurs. *)
Definition mentions (t : string) (j : JsObject) : Prop :=
  (∃ setup, j !! "setup" = Some (JStr setup) ∧ substring_of t setup)
  ∨ (∃ punchline, j !! "punchline" = Some (JStr punchline) ∧ substring_of t punchline).

(** The same test as a function, for jokes that have both texts. *)
Definition text_of (v : JsValue) : string :=
  match v with
  | JStr s => s
  | _ => ""
  end.

Definition mentionsb (t : string) (j : JsObject) : bool :=
  str_includes (text_of (get_prop j "setup")) t
  || str_includes (text_of (get_prop j "punchline")) t.


(** The values under [id] of the jokes of a list, a missing one included
    as [None]. *)
Definition ids (l : list JsObject) : list (option JsValue) :=
  (fun j : JsObject => j !! "id") <$> l.

(** Every integer that is the id of a joke of the bundled data is below
    the counter's seed. *)
Definition seed_ids_small (seed : list JsObject) : Prop :=
  Forall (fun j => ∀ n, has_id n j → n < 10000000) seed.

(** ** The older module, [src/index.js]

    It has the same counter and the same handlers for creating, deleting
    and searching (the search under /jokes/tag), and no reset; [allJokes]
    there is the bundled array itself.  Its handler for /jokes/first
    differs. *)

Module Older.

(** GET /jokes/first: [res.json([allJokes[0]])]. *)
Definition handleRequestForFirstJoke (s : Server) : Outcome * Server :=
  respond 200 (Json (JArr [js_index (allJokes s) 0])) s.

(** The other handlers of the older module.  The field
    [originalJokesList] plays no part in them. *)

(** GET / *)
Definition handleRoot (s : Server) : Outcome * Server :=
  respond 200 (Text "This is a jokes API server.  Try /jokes or /jokes/random") s.

(** GET /time *)
Definition handleGetTime (now : string) (s : Server) : Outcome * Server :=
  respond 200 (Text now) s.

(** GET /jokes *)
Definition handleGetAllJokes (s : Server) : Outcome * Server :=
  respond 200 (Json (arrayOf (allJokes s))) s.

(** DELETE /jokes/:id; a joke that is not found is reported in plain
    text. *)
Definition handleDeleteJoke (id : option string) (s : Server) : Outcome * Server :=
  match id with
  | None => respond 404 (Text "missing id") s
  | Some soughtId =>
      let indexOfJokeToDelete :=
        findIndex (fun j => strict_equals (get_prop j "id") (parseInt soughtId))
                  (allJokes s) in
      if indexOfJokeToDelete <? 0
      then respond 404 (Text "joke not found") s
      else
        let jokeToDelete := js_index (allJokes s) (Z.to_nat indexOfJokeToDelete) in
        respond 200 (Json jokeToDelete)
          {| originalJokesList := originalJokesList s;
             allJokes := splice1 (allJokes s) indexOfJokeToDelete;
             nextJokeId := nextJokeId s |}
  end.

(** GET /jokes/tag; [q] is [req.query.searchTerm]. *)
Definition handleJokesTag (q : option QueryValue) (s : Server) : Outcome * Server :=
  match optional_toString q with
  | Throw e => (Crashed e, s)
  | Normal (JStr searchTerm) =>
      if negb (to_boolean (JStr searchTerm))
      then respond 400 (Text "missing searchTerm query parameter") s
      else
        match js_filter (joke_matches searchTerm) (allJokes s) with
        | Normal foundJokes => respond 200 (Json (arrayOf foundJokes)) s
        | Throw e => (Crashed e, s)
        end
  | Normal _ => respond 400 (Text "missing searchTerm query parameter") s
  end.

(** GET /jokes/random *)
Definition handleRequestForRandomJoke (r : nat) (s : Server) : Outcome * Server :=
  let chosenJoke := sample r (allJokes s) in
  respond 200 (Json (JArr [chosenJoke])) s.

(** POST /jokes *)
Definition handleRequestForPOSTJoke (body : Body) (now : string) (s : Server)
  : Outcome * Server :=
  match body with
  | NoBody | NullBody =>
      respond 400 (Text "where is your joke! it's not in the body, i think") s
  | ObjectBody newJoke =>
      let id := nextJokeId s in
      let newJoke := <["id" := JNum id]> newJoke in
      let newJoke := <["timestamp" := JStr now]> newJoke in
      respond 201 (Json (JObj newJoke))
        {| originalJokesList := originalJokesList s;
           allJokes := allJokes s ++ [newJoke];
           nextJokeId := nextJokeId s + 1 |}
  end.

(** The routes of the older module. *)
Inductive Request : Type :=
| GET_root
| GET_time (now : string)
| GET_jokes
| GET_jokes_first
| DELETE_jokes_id (id : option string)
| GET_jokes_tag (searchTerm : option QueryValue)
| GET_jokes_random (r : nat)
| POST_jokes (body : Body) (now : string).

Definition handle (req : Request) (s : Server) : Outcome * Server :=
  match req with
  | GET_root => handleRoot s
  | GET_time now => handleGetTime now s
  | GET_jokes => handleGetAllJokes s
  | GET_jokes_first => handleRequestForFirstJoke s
  | DELETE_jokes_id id => handleDeleteJoke id s
  | GET_jokes_tag q => handleJokesTag q s
  | GET_jokes_random r => handleRequestForRandomJoke r s
  | POST_jokes body now => handleRequestForPOSTJoke body now s
  end.

Fixpoint serve (reqs : list Request) (s : Server) : list Outcome * Server :=
  match reqs with
  | [] => ([], s)
  | req :: reqs' =>
      let '(out, s1) := handle req s in
      let '(outs, s2) := serve reqs' s1 in
      (out :: outs, s2)
  end.

End Older.

(** The request of the current module that asks what a request of the
    older module asks; the search has moved from /jokes/tag to
    /jokes/search. *)
Definition to_current (req : Older.Request) : Request :=
  match req with
  | Older.GET_root => GET_root
  | Older.GET_time now => GET_time now
  | Older.GET_jokes => GET_jokes
  | Older.GET_jokes_first => GET_jokes_first
  | Older.DELETE_jokes_id id => DELETE_jokes_id id
  | Older.GET_jokes_tag q => GET_jokes_search q
  | Older.GET_jokes_random r => GET_jokes_random r
  | Older.POST_jokes body now => POST_jokes body now
  end.

(** ** Sample data *)

Definition fish : JsObject :=
  {[ "id" := JNum 1;
     "type" := JStr "general";
     "setup" := JStr "What did the fish say when it hit the wall?";
     "punchline" := JStr "Dam." ]}.

Definition pun : JsObject :=
  {[ "type" := JStr "pun";
     "setup" := JStr "Why did...";
     "punchline" := JStr "Because..." ]}.

(** ** The invariant of the store *)

(** What holds of the bindings after any requests, for bundled data
    [seed]: the bundled data is still [seed], the counter is at or above
    its seed, the ids in the store are pairwise distinct, and each
    integer among them is below the counter. *)
Definition store_ok (seed : list JsObject) (s : Server) : Prop :=
  originalJokesList s = seed
  ∧ 10000000 ≤ nextJokeId s
  ∧ NoDup (ids (allJokes s))
  ∧ Forall (fun j => ∀ n, has_id n j → n < nextJokeId s) (allJokes s).

(** ** Vocabulary of the further statements *)

(** The requests sent with GET. *)
Definition is_get (req : Request) : bool :=
  match req with
  | DELETE_jokes_id _ | DELETE_jokes | POST_jokes _ _ | POST_jokes_reset => false
  | _ => true
  end.




(** A search, if [req] is one, sends a term whose [toString] does not
    throw. *)
Definition term_prints (req : Request) : Prop :=
  match req with
  | GET_jokes_search (Some v) => ∃ t, query_toString v = Normal t
  | _ => True
  end.

(** A create, if [req] is one, sends an object with both texts. *)
Definition body_has_texts (req : Request) : Prop :=
  match req with
  | POST_jokes (ObjectBody o) _ => has_texts o
  | _ => True
  end.

(** The values on which calling [includes] throws: all but strings and
    arrays. *)
Definition unreadable (v : JsValue) : Prop :=
  match v with
  | JStr _ | JArr _ => False
  | _ => True
  end.

(** The search test throws on [j]: its setup is unreadable, or its setup
    does not have the term and its punchline is unreadable. *)
Definition test_throws (t : string) (j : JsObject) : Prop :=
  unreadable (get_prop j "setup")
  ∨ (call_includes (get_prop j "setup") t = Normal false
     ∧ unreadable (get_prop j "punchline")).

(** The search test holds of [j]: its setup has the term, or its setup
    does not and its punchline has. *)
Definition test_holds (t : string) (j : JsObject) : Prop :=
  call_includes (get_prop j "setup") t = Normal true
  ∨ (call_includes (get_prop j "setup") t = Normal false
     ∧ call_includes (get_prop j "punchline") t = Normal true).

(** No integer id in [l] has reached [bound]. *)
Definition ids_below (bound : Z) (l : list JsObject) : Prop :=
  Forall (fun j => ∀ n, has_id n j → n < bound) l.

(** [j] was made by a create: its id is an integer from the counter's
    seed up to [bound], and it has a timestamp. *)
Definition created_below (bound : Z) (j : JsObject) : Prop :=
  ∃ (n : Z) (now : string),
    has_id n j ∧ 10000000 ≤ n < bound ∧ j !! "timestamp" = Some (JStr now).

Definition id_lt (j1 j2 : JsObject) : Prop :=
  ∃ n1 n2 : Z, has_id n1 j1 ∧ has_id n2 j2 ∧ n1 < n2.

(** How the store is laid out: jokes of the bundled data first, in the
    order they have there, then created jokes in the order of their
    ids. *)
Definition layout (seed : list JsObject) (s : Server) : Prop :=
  ∃ kept created : list JsObject,
    allJokes s = kept ++ created
    ∧ kept `sublist_of` seed
    ∧ Forall (created_below (nextJokeId s)) created
    ∧ StronglySorted id_lt created.

(** A failure as the handlers report it: plain text, or a JSON object
    with outcome failure and a message. *)
Definition failure_payload (p : Payload) : Prop :=
  match p with
  | Text _ => True
  | Json (JObj o) =>
      o !! "outcome" = Some (JStr "failure") ∧ ∃ m, o !! "message" = Some (JStr m)
  | Json _ => False
  end.

(** * Properties *)

(** ** The building blocks on sample inputs *)

Example str_includes_inside : str_includes "the dentist said" "dentist" = true.
Proof. reflexivity. Qed.

Example str_includes_case : str_includes "the Dentist said" "dentist" = false.
Proof. reflexivity. Qed.

Example parseInt_plain : parseInt "42" = Int 42.
Proof. reflexivity. Qed.

Example parseInt_negative : parseInt "  -17" = Int (-17).
Proof. reflexivity. Qed.

Example parseInt_hex : parseInt "0x1F" = Int 31.
Proof. reflexivity. Qed.

Example parseInt_word : parseInt "abc" = NaN.
Proof. reflexivity. Qed.

Example parseInt_empty : parseInt "" = NaN.
Proof. reflexivity. Qed.

Example parseInt_trailing : parseInt "12abc" = Int 12.
Proof. reflexivity. Qed.

(** ** Facts about the building blocks *)

Lemma strict_equals_has_id (j : JsObject) (n : Z) :
  strict_equals (get_prop j "id") (Int n) = true ↔ has_id n j.
Proof.
  unfold has_id, get_prop.
  destruct (j !! "id") as [[]|]; simpl; split; intros H;
    try discriminate; try congruence.
  - apply Z.eqb_eq in H. by subst.
  - injection H as ->. apply Z.eqb_refl.
Qed.

Lemma strict_equals_NaN (v : JsValue) : strict_equals v NaN = false.
Proof. by destruct v. Qed.

Lemma count_from_lower (n : Z) (len : nat) (x : Z) :
  x ∈ count_from n len → n ≤ x.
Proof.
  revert n. induction len as [|len IH]; intros n; simpl.
  - by intros ?%elem_of_nil.
  - intros [->|Hx]%elem_of_cons; [lia|]. apply IH in Hx. lia.
Qed.

Lemma count_from_sorted (n : Z) (len : nat) :
  StronglySorted Z.lt (count_from n len).
Proof.
  revert n. induction len as [|len IH]; intros n; simpl; constructor.
  - apply IH.
  - apply List.Forall_forall. intros x Hx%list_elem_of_In.
    apply count_from_lower in Hx. lia.
Qed.

Lemma count_from_NoDup (n : Z) (len : nat) : NoDup (count_from n len).
Proof.
  revert n. induction len as [|len IH]; intros n; simpl; constructor.
  - intros Hx%count_from_lower. lia.
  - apply IH.
Qed.

Lemma length_count_from (n : Z) (len : nat) : length (count_from n len) = len.
Proof. revert n. induction len as [|len IH]; intros n; simpl; [done|by rewrite IH]. Qed.

(** Unfold the handlers in the goal and split on every test they make. *)
Ltac handler_cases :=
  unfold handleGetFirstJoke, handleDeleteJoke, handleJokesSearch, handleGetJokeById,
    handleRequestForPOSTJoke, optional_toString;
  repeat case_match; simpl; try done.

(** The handlers that only read leave the bindings alone, also when they
    throw. *)
Lemma readers_keep_state (req : Request) (s : Server) :
  match req with
  | DELETE_jokes_id _ | DELETE_jokes | POST_jokes _ _ | POST_jokes_reset => True
  | _ => snd (handle req s) = s
  end.
Proof. destruct req; simpl; try done; handler_cases. Qed.

(** No handler but the search throws. *)
Lemma only_search_throws (req : Request) (s : Server) (e : JsError) :
  fst (handle req s) = Crashed e → ∃ q, req = GET_jokes_search q.
Proof. destruct req; simpl; try done; try (by eexists); handler_cases. Qed.

(** One request either assigns the counter's value and moves the counter
    up by one, or assigns nothing and leaves the counter alone. *)
Lemma handle_counter (req : Request) (s : Server) :
  (assigned_id (fst (handle req s)) = Some (nextJokeId s)
   ∧ nextJokeId (snd (handle req s)) = nextJokeId s + 1)
  ∨ (assigned_id (fst (handle req s)) = None
     ∧ nextJokeId (snd (handle req s)) = nextJokeId s).
Proof.
  destruct req as [| | | |id| |q| |id|body now|]; simpl;
    try (right; split; reflexivity); try (right; by handler_cases).
  destruct body as [| |o]; [by right..|]. left. split; [|done].
  unfold assigned_id, id_of; simpl. by rewrite lookup_insert_ne, lookup_insert_eq.
Qed.

Lemma serve_cons (req : Request) (reqs : list Request) (s : Server) :
  serve (req :: reqs) s =
  (fst (handle req s) :: fst (serve reqs (snd (handle req s))),
   snd (serve reqs (snd (handle req s)))).
Proof.
  simpl. destruct (handle req s) as [out s1]; simpl.
  by destruct (serve reqs s1).
Qed.

Lemma serve_counter (reqs : list Request) (s : Server) :
  let ids := omap assigned_id (fst (serve reqs s)) in
  ids = count_from (nextJokeId s) (length ids)
  ∧ nextJokeId (snd (serve reqs s)) = nextJokeId s + Z.of_nat (length ids).
Proof.
  revert s. induction reqs as [|req reqs IH]; intros s.
  - simpl. split; [done|lia].
  - rewrite serve_cons. cbn [fst snd omap list_omap].
    destruct (IH (snd (handle req s))) as [Hids Hnext].
    destruct (handle_counter req s) as [[-> Hc]|[-> Hc]]; rewrite Hc in *.
    + cbn [length count_from]. split; [by f_equal|lia].
    + split; [done|lia].
Qed.

Lemma handle_seed (req : Request) (s : Server) :
  originalJokesList (snd (handle req s)) = originalJokesList s.
Proof. destruct req; simpl; try done; handler_cases. Qed.

Lemma serve_seed (reqs : list Request) (s : Server) :
  originalJokesList (snd (serve reqs s)) = originalJokesList s.
Proof.
  revert s. induction reqs as [|req reqs IH]; intros s; [done|].
  rewrite serve_cons. cbn [snd]. by rewrite IH, handle_seed.
Qed.

(** ** Ids are assigned in increasing order and never twice *)

(** C1: whatever requests are served from the start, the ids assigned by
    the creates are 10000000, 10000001, ... in the order of the creates:
    strictly increasing and without repetition.  The counter stands at
    10000000 plus the number of creates, so no delete and no reset sets
    it back. *)
Theorem assigned_ids_count_up (seed : list JsObject) (reqs : list Request) :
  assigned_ids reqs seed = count_from 10000000 (length (assigned_ids reqs seed))
  ∧ StronglySorted Z.lt (assigned_ids reqs seed)
  ∧ NoDup (assigned_ids reqs seed)
  ∧ nextJokeId (state_after reqs seed)
    = 10000000 + Z.of_nat (length (assigned_ids reqs seed)).
Proof.
  destruct (serve_counter reqs (init seed)) as [Hids Hnext].
  unfold assigned_ids, outcomes, state_after. cbn [init nextJokeId] in *.
  split; [exact Hids|]. split; [|split; [|exact Hnext]].
  - rewrite Hids. apply count_from_sorted.
  - rewrite Hids. apply count_from_NoDup.
Qed.

Example assigned_ids_across_delete_and_reset :
  assigned_ids
    [POST_jokes (ObjectBody pun) "Mon"; DELETE_jokes_id (Some "10000000");
     POST_jokes (ObjectBody pun) "Tue"; DELETE_jokes; POST_jokes_reset;
     POST_jokes (ObjectBody pun) "Wed"]
    [fish]
  = [10000000; 10000001; 10000002].
Proof. vm_compute. reflexivity. Qed.

(** ** Creating a joke *)

(** C2: a create without a body or with [null] for a body answers 400
    and changes nothing, so the store keeps its size; a create with an
    object for a body, whatever its fields, answers 201 with the stored
    joke, which is the new last element of the store, has the counter's
    value as id and the clock's reading as timestamp; the counter goes
    up by one. *)
Theorem create_contract (body : Body) (now : string) (s : Server) :
  match body with
  | NoBody | NullBody =>
      status_of (fst (handle (POST_jokes body now) s)) = Some 400
      ∧ snd (handle (POST_jokes body now) s) = s
      ∧ length (allJokes (snd (handle (POST_jokes body now) s)))
        = length (allJokes s)
  | ObjectBody o =>
      ∃ j : JsObject,
        fst (handle (POST_jokes body now) s) = Sent (mkResponse 201 (Json (JObj j)))
        ∧ allJokes (snd (handle (POST_jokes body now) s)) = allJokes s ++ [j]
        ∧ j !! "id" = Some (JNum (nextJokeId s))
        ∧ j !! "timestamp" = Some (JStr now)
        ∧ nextJokeId (snd (handle (POST_jokes body now) s)) = nextJokeId s + 1
        ∧ originalJokesList (snd (handle (POST_jokes body now) s))
          = originalJokesList s
  end.
Proof.
  destruct body as [| |o]; simpl; [done..|].
  eexists. split; [reflexivity|]. split; [reflexivity|].
  split; [by rewrite lookup_insert_ne, lookup_insert_eq|].
  split; [by rewrite lookup_insert_eq|done].
Qed.

(** C10: on a create with an object for a body, the joke in the 201
    response is the joke appended to the store, and it is the body with
    [id] and [timestamp] set: every other property has the value the
    client sent, and no property other than these two is new. *)
Theorem create_keeps_other_fields (o : JsObject) (now : string) (s : Server) :
  ∃ j : JsObject,
    fst (handle (POST_jokes (ObjectBody o) now) s)
      = Sent (mkResponse 201 (Json (JObj j)))
    ∧ last (allJokes (snd (handle (POST_jokes (ObjectBody o) now) s))) = Some j
    ∧ j = <["timestamp" := JStr now]> (<["id" := JNum (nextJokeId s)]> o)
    ∧ (∀ k : string, k ≠ "id" → k ≠ "timestamp" → j !! k = o !! k)
    ∧ dom j = {["id"; "timestamp"]} ∪ dom o.
Proof.
  eexists. split; [reflexivity|]. cbn [handle handleRequestForPOSTJoke respond snd allJokes].
  split; [by rewrite last_snoc|]. split; [reflexivity|]. split.
  - intros k Hid Hts. by rewrite !lookup_insert_ne.
  - rewrite !dom_insert_L. apply set_eq. intros k.
    rewrite !elem_of_union, !elem_of_singleton. tauto.
Qed.

Example create_keeps_an_undocumented_field :
  (joke_of (fst (handle (POST_jokes (ObjectBody (<["rating" := JNum 5]> pun)) "Mon")
                        (init [fish])))
     ≫= (.!! "rating")) = Some (JNum 5).
Proof. vm_compute. reflexivity. Qed.

(** ** Resetting *)

(** C7: after any requests, a reset answers 200 with outcome success and
    makes the store the bundled data again, so that listing right after
    it gives the bundled data in its order; the counter keeps the value
    it had, 10000000 plus the number of creates so far. *)
Theorem reset_restores_seed (seed : list JsObject) (reqs : list Request) :
  fst (handle POST_jokes_reset (state_after reqs seed))
    = Sent (mkResponse 200 (Json (JObj (success "jokes list has been reset"))))
  ∧ allJokes (snd (handle POST_jokes_reset (state_after reqs seed))) = seed
  ∧ handle GET_jokes (snd (handle POST_jokes_reset (state_after reqs seed)))
    = (Sent (mkResponse 200 (Json (arrayOf seed))),
       snd (handle POST_jokes_reset (state_after reqs seed)))
  ∧ nextJokeId (snd (handle POST_jokes_reset (state_after reqs seed)))
    = nextJokeId (state_after reqs seed)
  ∧ nextJokeId (snd (handle POST_jokes_reset (state_after reqs seed)))
    = 10000000 + Z.of_nat (length (assigned_ids reqs seed)).
Proof.
  pose proof (serve_seed reqs (init seed)) as Hseed.
  destruct (serve_counter reqs (init seed)) as [_ Hnext].
  unfold state_after, assigned_ids, outcomes.
  cbn [handle handleReset handleGetAllJokes respond fst snd allJokes nextJokeId init
       originalJokesList] in *.
  rewrite Hseed. done.
Qed.

Example reset_after_create_and_delete_all :
  outcomes [POST_jokes (ObjectBody pun) "Mon"; DELETE_jokes; POST_jokes_reset; GET_jokes]
           [fish]
    !! 3%nat
  = Some (Sent (mkResponse 200 (Json (arrayOf [fish])))).
Proof. vm_compute. reflexivity. Qed.

(** ** The first joke *)

(** The handler of the current module does what is asked of
    /jokes/first: the first joke alone with 200, or 404 on an empty
    store. *)
Lemma handleGetFirstJoke_contract (s : Server) :
  snd (handleGetFirstJoke s) = s
  ∧ match allJokes s with
    | j :: _ => fst (handleGetFirstJoke s) = Sent (mkResponse 200 (Json (JObj j)))
    | [] => status_of (fst (handleGetFirstJoke s)) = Some 404
    end.
Proof. unfold handleGetFirstJoke. by destruct (allJokes s). Qed.

(** C8: the handler of the older module answers 200 whatever the store
    holds: on an empty store it sends an array holding [undefined]
    instead of failing with 404, and on a store with jokes it sends the
    first joke inside an array instead of the joke alone. *)
Theorem older_first_joke_wraps_and_never_fails :
  fst (Older.handleRequestForFirstJoke (init []))
    = Sent (mkResponse 200 (Json (JArr [JUndefined])))
  ∧ status_of (fst (Older.handleRequestForFirstJoke (init []))) ≠ Some 404
  ∧ fst (Older.handleRequestForFirstJoke (init [fish]))
    = Sent (mkResponse 200 (Json (JArr [JObj fish])))
  ∧ fst (Older.handleRequestForFirstJoke (init [fish]))
    ≠ Sent (mkResponse 200 (Json (JObj fish))).
Proof. repeat split; try done. Qed.

(** ** Handlers that throw *)

(** C4: a create with an empty object for a body is accepted with 201,
    and the search that follows throws a TypeError while reading
    [setup] of the stored joke: the handler sends no response of its
    own, and none with a 4xx status. *)
Theorem search_throws_after_create_without_texts :
  ∃ r : Response,
    outcomes [POST_jokes (ObjectBody ∅) "Mon"; GET_jokes_search (Some (QStr "fish"))] []
    = [Sent r;
       Crashed (TypeError "Cannot read properties of undefined (reading 'includes')")]
    ∧ status r = 201.
Proof. eexists. split; [vm_compute; reflexivity|reflexivity]. Qed.

(** ** Looking a joke up by id *)

(** [find] stops at the first element that passes the test. *)
Lemma find_first (p : JsObject → bool) (l : list JsObject) :
  match List.find p l with
  | Some j =>
      ∃ l1 l2, l = l1 ++ j :: l2 ∧ Forall (fun j' => p j' = false) l1 ∧ p j = true
  | None => Forall (fun j' => p j' = false) l
  end.
Proof.
  induction l as [|x l IH]; simpl; [constructor|].
  destruct (p x) eqn:Hx.
  - exists [], l. by repeat split.
  - destruct (List.find p l) as [j|].
    + destruct IH as (l1 & l2 & -> & Hl1 & Hj).
      exists (x :: l1), l2. repeat split; [|done]. by constructor.
    + by constructor.
Qed.

(** [findIndex] gives the position of that element, or -1. *)
Lemma findIndex_from_first (p : JsObject → bool) (l : list JsObject) (k : Z) :
  (findIndex_from p l k = -1 ∧ Forall (fun j' => p j' = false) l)
  ∨ (∃ l1 j l2,
       l = l1 ++ j :: l2 ∧ Forall (fun j' => p j' = false) l1 ∧ p j = true
       ∧ findIndex_from p l k = k + Z.of_nat (length l1)).
Proof.
  revert k. induction l as [|x l IH]; intros k; simpl.
  - left. by split.
  - destruct (p x) eqn:Hx.
    + right. exists [], x, l. simpl. repeat split; [done..|lia].
    + destruct (IH (k + 1)) as [[Hi Hall]|(l1 & j & l2 & -> & Hl1 & Hj & Hi)].
      * left. split; [done|by constructor].
      * right. exists (x :: l1), j, l2. simpl.
        repeat split; [by constructor|done|lia].
Qed.

Lemma splice1_middle (l1 l2 : list JsObject) (j : JsObject) :
  splice1 (l1 ++ j :: l2) (0 + Z.of_nat (length l1)) = l1 ++ l2.
Proof.
  unfold splice1. rewrite Z.add_0_l, Nat2Z.id.
  induction l1 as [|x l1 IH]; simpl; [done|]. by f_equal.
Qed.

Lemma js_index_middle (l1 l2 : list JsObject) (j : JsObject) :
  js_index (l1 ++ j :: l2) (Z.to_nat (0 + Z.of_nat (length l1))) = JObj j.
Proof.
  unfold js_index. rewrite Z.add_0_l, Nat2Z.id.
  by rewrite list_lookup_middle.
Qed.

Lemma strict_equals_infinite (v : JsValue) (negative : bool) :
  strict_equals v (Infinity negative) = false.
Proof. by destruct v. Qed.

Lemma find_none_infinite (negative : bool) (l : list JsObject) :
  List.find (fun j => strict_equals (get_prop j "id") (Infinity negative)) l = None.
Proof.
  induction l as [|x l IH]; simpl; [done|]. by rewrite strict_equals_infinite.
Qed.

(** ** What [parseInt] reads *)











Example get_by_id_finds_the_fish :
  fst (handleGetJokeById (Some "1") (init [fish]))
  = Sent (mkResponse 200 (Json (JObj fish))).
Proof. vm_compute. reflexivity. Qed.

Example get_by_id_missing_joke :
  status_of (fst (handleGetJokeById (Some "999999") (init [fish]))) = Some 404
  ∧ (joke_of (fst (handleGetJokeById (Some "999999") (init [fish])))
       ≫= (.!! "soughtId")) = Some (JNum 999999).
Proof. split; vm_compute; reflexivity. Qed.

Example get_by_id_reads_leading_digits :
  fst (handleGetJokeById (Some "1abc") (init [fish]))
  = Sent (mkResponse 200 (Json (JObj fish))).
Proof. vm_compute. reflexivity. Qed.

Example parseInt_rounds_to_a_double :
  parseInt "9007199254740993" = Int 9007199254740992
  ∧ parseInt "9007199254740995" = Int 9007199254740996
  ∧ parseInt ("1" +:+ String.concat "" (replicate 400 "0")) = Infinity false.
Proof. repeat split; vm_compute; reflexivity. Qed.

Example get_by_id_reads_a_rounded_id :
  (joke_of (fst (handleGetJokeById (Some "9007199254740993") (init [fish])))
     ≫= (.!! "soughtId")) = Some (JNum 9007199254740992)
  ∧ status_of (fst (handleGetJokeById (Some "9007199254740993")
                      (init [<["id" := JNum 9007199254740992]> fish]))) = Some 200.
Proof. split; vm_compute; reflexivity. Qed.

Example get_by_id_not_a_number :
  status_of (fst (handleGetJokeById (Some "fish") (init [fish]))) = Some 400.
Proof. vm_compute. reflexivity. Qed.

(** ** Deleting a joke by id *)




Example delete_takes_the_first_of_two :
  allJokes (snd (handleDeleteJoke (Some "1") (init [pun; fish; pun; fish])))
  = [pun; pun; fish].
Proof. vm_compute. reflexivity. Qed.

Example delete_reads_a_rounded_id :
  fst (handleDeleteJoke (Some "9007199254740993")
         (init [fish; <["id" := JNum 9007199254740992]> pun]))
    = Sent (mkResponse 200 (Json (JObj (<["id" := JNum 9007199254740992]> pun))))
  ∧ allJokes (snd (handleDeleteJoke (Some "9007199254740993")
                     (init [fish; <["id" := JNum 9007199254740992]> pun])))
    = [fish].
Proof. split; vm_compute; reflexivity. Qed.

Example delete_unknown_id :
  handleDeleteJoke (Some "7") (init [fish])
  = (Sent (mkResponse 404 (Json (JObj (failure "joke not found")))), init [fish]).
Proof. vm_compute. reflexivity. Qed.

(** ** Searching *)

Lemma starts_with_prefix (t s : string) :
  starts_with t s = true ↔ ∃ after : string, s = t +:+ after.
Proof.
  revert s. induction t as [|a t IH]; intros s; simpl.
  - split; [|done]. intros _. by exists s.
  - destruct s as [|b s]; simpl.
    + split; [done|]. by intros [after ?].
    + rewrite andb_true_iff, IH. split.
      * intros [->%Ascii.eqb_eq [after ->]]. by exists after.
      * intros [after [= -> ->]]. split; [apply Ascii.eqb_refl|by exists after].
Qed.

Lemma str_includes_substring (s t : string) :
  str_includes s t = true ↔ substring_of t s.
Proof.
  unfold substring_of. induction s as [|b s IH].
  - simpl. rewrite orb_false_r, starts_with_prefix. split.
    + intros [after ->]. by exists "", after.
    + intros (before & after & Heq). destruct before; [by exists after|done].
  - cbn [str_includes]. rewrite orb_true_iff, IH, starts_with_prefix. split.
    + intros [[after ->]|(before & after & ->)].
      * by exists "", after.
      * by exists (String b before), after.
    + intros (before & after & Heq). destruct before as [|b' before]; simpl in Heq.
      * left. by exists after.
      * right. injection Heq as -> ->. by exists before, after.
Qed.

Lemma str_includes_empty_text (t : string) : t ≠ "" → str_includes "" t = false.
Proof. by destruct t. Qed.

Lemma text_includes (j : JsObject) (k t : string) :
  t ≠ "" →
  str_includes (text_of (get_prop j k)) t = true
  ↔ ∃ text, j !! k = Some (JStr text) ∧ substring_of t text.
Proof.
  intros Ht. unfold get_prop.
  destruct (j !! k) as [v|] eqn:Hv.
  2:{ cbn [text_of]. rewrite str_includes_empty_text by done.
      split; [done|]. by intros (? & ? & _). }
  destruct v as [| | | |text| |]; cbn [text_of];
    try (rewrite str_includes_empty_text by done; split; [done|]; by intros (? & ? & _)).
  rewrite str_includes_substring. split.
  - intros Hsub. by exists text.
  - by intros (? & [= <-] & Hsub).
Qed.

(** For a term that is not empty the test as a function and the test as
    a statement agree. *)
Lemma mentionsb_mentions (t : string) (j : JsObject) :
  t ≠ "" → mentionsb t j = true ↔ mentions t j.
Proof.
  intros Ht. unfold mentionsb, mentions.
  by rewrite orb_true_iff, !text_includes.
Qed.

(** On a joke that has both texts the test does not throw. *)
Lemma joke_matches_texts (t : string) (j : JsObject) :
  has_texts j → joke_matches t j = Normal (mentionsb t j).
Proof.
  intros (setup & punchline & Hs & Hp).
  unfold joke_matches, mentionsb, get_prop. rewrite Hs, Hp. simpl.
  unfold mbind, completion_bind, mret, completion_ret.
  by destruct (str_includes setup t).
Qed.

Lemma js_filter_texts (t : string) (l : list JsObject) :
  Forall has_texts l →
  js_filter (joke_matches t) l = Normal (List.filter (mentionsb t) l).
Proof.
  induction 1 as [|j l Hj Hl IH]; simpl; [done|].
  rewrite joke_matches_texts, IH by done.
  unfold mbind, completion_bind, mret, completion_ret.
  by destruct (mentionsb t j).
Qed.

Lemma search_string_term (t : string) (s : Server) :
  t ≠ "" →
  handleJokesSearch (Some (QStr t)) s
  = match js_filter (joke_matches t) (allJokes s) with
    | Normal foundJokes => respond 200 (Json (arrayOf foundJokes)) s
    | Throw e => (Crashed e, s)
    end.
Proof. intros Ht. unfold handleJokesSearch. simpl. by destruct t. Qed.


(** On a store whose jokes all have their texts no handler throws,
    unless a search is sent a term whose [toString] throws. *)
Lemma no_throw_with_texts (req : Request) (s : Server) :
  Forall has_texts (allJokes s) → term_prints req → ∃ r, fst (handle req s) = Sent r.
Proof.
  intros Hall Hterm. destruct req as [| | | |id| |q| |id|body now|]; simpl;
    try (by eexists); try (handler_cases; by eexists).
  unfold handleJokesSearch, optional_toString. destruct q as [v|]; simpl; [|by eexists].
  destruct Hterm as [t ->]. simpl.
  rewrite js_filter_texts by done. destruct (negb _); by eexists.
Qed.

(** With a string that is not empty for a term, on a store whose jokes
    all have a string for setup and a string for punchline, a search
    answers 200 with the jokes of the store whose setup or punchline has
    the term as a substring, case and all, in the order of the store,
    and leaves the store as it was; with no such joke the array is
    empty. *)
Theorem search_contract (t : string) (s : Server) :
  t ≠ "" →
  Forall has_texts (allJokes s) →
  handleJokesSearch (Some (QStr t)) s
    = (Sent (mkResponse 200 (Json (arrayOf (List.filter (mentionsb t) (allJokes s))))), s)
  ∧ (∀ j, j ∈ List.filter (mentionsb t) (allJokes s) ↔ j ∈ allJokes s ∧ mentions t j)
  ∧ ((∀ j, j ∈ allJokes s → ¬ mentions t j) →
     handleJokesSearch (Some (QStr t)) s = (Sent (mkResponse 200 (Json (JArr []))), s)).
Proof.
  intros Ht Hall.
  assert (Hrun : handleJokesSearch (Some (QStr t)) s
    = (Sent (mkResponse 200 (Json (arrayOf (List.filter (mentionsb t) (allJokes s))))), s)).
  { rewrite search_string_term by done. by rewrite js_filter_texts. }
  assert (Hmem : ∀ j, j ∈ List.filter (mentionsb t) (allJokes s)
                      ↔ j ∈ allJokes s ∧ mentions t j).
  { intros j. rewrite !list_elem_of_In, List.filter_In.
    by rewrite mentionsb_mentions. }
  split; [done|]. split; [done|].
  intros Hnone. rewrite Hrun.
  destruct (List.filter (mentionsb t) (allJokes s)) as [|j found] eqn:Hfound; [done|].
  exfalso. destruct (proj1 (Hmem j)) as [Hin Hm]; [by left|]. by apply (Hnone j).
Qed.

(** The search for Dam on a store of two jokes with texts. *)
Lemma search_contract_witness :
  handleJokesSearch (Some (QStr "Dam")) (init [fish; pun])
  = (Sent (mkResponse 200
       (Json (arrayOf (List.filter (mentionsb "Dam") (allJokes (init [fish; pun])))))),
     init [fish; pun]).
Proof.
  apply (search_contract "Dam" (init [fish; pun])).
  - discriminate.
  - repeat constructor; eexists _, _; split; vm_compute; reflexivity.
Defined.

Example search_is_case_sensitive :
  fst (handleJokesSearch (Some (QStr "Dam")) (init [fish; pun]))
    = Sent (mkResponse 200 (Json (arrayOf [fish])))
  ∧ fst (handleJokesSearch (Some (QStr "dam")) (init [fish; pun]))
    = Sent (mkResponse 200 (Json (JArr []))).
Proof. split; vm_compute; reflexivity. Qed.

Example search_with_other_query_values :
  status_of (fst (handleJokesSearch (Some (QArr [QStr ""])) (init [fish]))) = Some 400
  ∧ fst (handleJokesSearch (Some (QArr [QStr "fish"; QStr "Dam"])) (init [fish]))
    = Sent (mkResponse 200 (Json (JArr [])))
  ∧ fst (handleJokesSearch (Some (QObj [("toString", QStr "fish")])) (init [fish]))
    = Crashed (TypeError "req.query.searchTerm?.toString is not a function").
Proof. split; [|split]; vm_compute; reflexivity. Qed.

(** C5: on the bundled fish joke, once a create has stored an empty
    object, the search for fish, a term that is not empty and that the
    setup of the fish joke contains, sends no response at all: reading
    [setup] of the stored object throws.  The documented answer is 200
    with the jokes that contain the term, here the fish joke. *)
Theorem search_without_texts_sends_nothing :
  fst (handleJokesSearch (Some (QStr "fish"))
         (state_after [POST_jokes (ObjectBody ∅) "Mon"] [fish]))
    = Crashed (TypeError "Cannot read properties of undefined (reading 'includes')")
  ∧ status_of
      (fst (handleJokesSearch (Some (QStr "fish"))
              (state_after [POST_jokes (ObjectBody ∅) "Mon"] [fish])))
    ≠ Some 200
  ∧ List.filter (mentionsb "fish")
      (allJokes (state_after [POST_jokes (ObjectBody ∅) "Mon"] [fish]))
    = [fish].
Proof. split; [|split]; vm_compute; [reflexivity|discriminate|reflexivity]. Qed.

(** ** The ids in the store stay distinct *)

(** A delete by id takes at most one element out and touches nothing
    else. *)
Lemma handleDeleteJoke_store (id : option string) (s : Server) :
  originalJokesList (snd (handleDeleteJoke id s)) = originalJokesList s
  ∧ nextJokeId (snd (handleDeleteJoke id s)) = nextJokeId s
  ∧ (allJokes (snd (handleDeleteJoke id s)) = allJokes s
     ∨ ∃ i : nat, allJokes (snd (handleDeleteJoke id s)) = delete i (allJokes s)).
Proof.
  unfold handleDeleteJoke. destruct id as [soughtId|]; [|by repeat split; left].
  case_match; simpl; repeat split; [by left|]. right. by eexists.
Qed.

Section Invariant.

(** The bundled data and what the claim assumes of it. *)
Variable seed : list JsObject.
Hypothesis seed_distinct : NoDup (ids seed).
Hypothesis seed_small : seed_ids_small seed.

Lemma store_ok_init : store_ok seed (init seed).
Proof.
  repeat split; simpl; [lia|done|].
  eapply Forall_impl; [exact seed_small|]. intros j Hj n Hid. by apply Hj.
Qed.

Lemma store_ok_delete (id : option string) (s : Server) :
  store_ok seed s → store_ok seed (snd (handleDeleteJoke id s)).
Proof.
  intros (Hseed & Hlow & Hnodup & Hbelow).
  destruct (handleDeleteJoke_store id s) as (Ho & Hn & [Hsame|[i Hdel]]);
    repeat split; rewrite ?Ho, ?Hn; try done.
  - by rewrite Hsame.
  - by rewrite Hsame.
  - rewrite Hdel. unfold ids. rewrite list_fmap_delete.
    eapply sublist_NoDup; [exact Hnodup|]. apply sublist_delete.
  - rewrite Hdel. by apply Forall_delete.
Qed.

Lemma store_ok_create (o : JsObject) (now : string) (s : Server) :
  store_ok seed s →
  store_ok seed (snd (handleRequestForPOSTJoke (ObjectBody o) now s)).
Proof.
  intros (Hseed & Hlow & Hnodup & Hbelow).
  repeat split; simpl; [done|lia| |].
  - unfold ids. rewrite fmap_app. apply NoDup_app. split; [done|]. split.
    + intros v Hv Hnew. apply list_elem_of_fmap in Hv as (j & -> & Hj).
      apply list_elem_of_singleton in Hnew.
      rewrite lookup_insert_ne, lookup_insert_eq in Hnew by done.
      rewrite Forall_forall in Hbelow.
      specialize (Hbelow j Hj (nextJokeId s) Hnew). lia.
    + apply NoDup_singleton.
  - apply Forall_app. split.
    + eapply Forall_impl; [exact Hbelow|]. intros j Hj n Hid.
      specialize (Hj n Hid). lia.
    + constructor; [|constructor]. intros n. unfold has_id.
      rewrite lookup_insert_ne, lookup_insert_eq by done. intros [= <-]. lia.
Qed.

Lemma store_ok_reset (s : Server) :
  store_ok seed s → store_ok seed (snd (handleReset s)).
Proof.
  intros (Hseed & Hlow & Hnodup & Hbelow).
  repeat split; simpl; [done|done|by rewrite Hseed|]. rewrite Hseed.
  eapply Forall_impl; [exact seed_small|]. intros j Hj n Hid.
  specialize (Hj n Hid). lia.
Qed.

Lemma store_ok_handle (req : Request) (s : Server) :
  store_ok seed s → store_ok seed (snd (handle req s)).
Proof.
  intros Hs. pose proof (readers_keep_state req s) as Hread.
  destruct req as [| | | |id| |q| |id|body now|]; try (by rewrite Hread).
  - by apply store_ok_delete.
  - destruct Hs as (Hseed & Hlow & _ & _). repeat split; simpl; try done. constructor.
  - destruct body as [| |o]; [done..|]. by apply store_ok_create.
  - by apply store_ok_reset.
Qed.

Lemma store_ok_serve (reqs : list Request) (s : Server) :
  store_ok seed s → store_ok seed (snd (serve reqs s)).
Proof.
  revert s. induction reqs as [|req reqs IH]; intros s Hs; [done|].
  rewrite serve_cons. cbn [snd]. apply IH. by apply store_ok_handle.
Qed.

End Invariant.

(** C9: when the ids of the bundled data are pairwise distinct and those
    that are integers are below 10000000, the ids of the jokes in the
    store are pairwise distinct after any sequence of requests, whatever
    the requests are and whether or not one of them throws. *)
Theorem reachable_ids_distinct (seed : list JsObject) (reqs : list Request) :
  NoDup (ids seed) →
  seed_ids_small seed →
  NoDup (ids (allJokes (state_after reqs seed))).
Proof.
  intros Hdup Hsmall.
  destruct (store_ok_serve seed Hdup Hsmall reqs (init seed)) as (_ & _ & Hnodup & _);
    [by apply store_ok_init|done].
Qed.

Lemma fish_id : fish !! "id" = Some (JNum 1).
Proof. vm_compute. reflexivity. Qed.

(** C9 on the fish joke as bundled data, through creates, a delete, a
    reset and a search. *)
Lemma reachable_ids_distinct_witness :
  NoDup (ids (allJokes (state_after
    [POST_jokes (ObjectBody pun) "Mon"; GET_jokes_random 4;
     DELETE_jokes_id (Some "1"); POST_jokes_reset;
     POST_jokes (ObjectBody fish) "Tue"; GET_jokes_search (Some (QStr "fish"))]
    [fish]))).
Proof.
  apply (reachable_ids_distinct [fish]).
  - apply NoDup_singleton.
  - constructor; [|constructor]. intros n Hid. unfold has_id in Hid.
    rewrite fish_id in Hid. injection Hid as <-. lia.
Defined.

Example store_after_reset_and_create :
  id_of <$> allJokes (state_after
    [POST_jokes (ObjectBody pun) "Mon"; DELETE_jokes_id (Some "1"); POST_jokes_reset;
     POST_jokes (ObjectBody fish) "Tue"]
    [fish])
  = [Some 1; Some 10000001].
Proof. vm_compute. reflexivity. Qed.

(** * Further properties of the handlers *)

(** ** Statuses and payloads *)

(** Each route answers with a status of its own short list, and no
    handler but the search can throw: 201 comes from a create only, 400
    from a create, a search or a get by id, 404 from first, delete by id
    or get by id, and there is no other status. *)
Theorem statuses_by_route (req : Request) (s : Server) :
  match fst (handle req s) with
  | Crashed _ => ∃ q, req = GET_jokes_search q
  | Sent r =>
      match req with
      | GET_root | GET_time _ | GET_jokes | GET_jokes_random _
      | DELETE_jokes | POST_jokes_reset => status r = 200
      | GET_jokes_first | DELETE_jokes_id _ => status r = 200 ∨ status r = 404
      | GET_jokes_search _ => status r = 200 ∨ status r = 400
      | GET_jokes_id _ => status r = 200 ∨ status r = 400 ∨ status r = 404
      | POST_jokes _ _ => status r = 201 ∨ status r = 400
      end
  end.
Proof.
  destruct req as [| | | |id| |q| |id|body now|]; simpl; try done;
    handler_cases; simplify_eq/=; try (by eexists); auto.
Qed.

Lemma failure_is_failure (m : string) : failure_payload (Json (JObj (failure m))).
Proof.
  unfold failure. simpl. split.
  - by rewrite lookup_insert_eq.
  - exists m. rewrite lookup_insert_ne by done. by simplify_map_eq.
Qed.

Lemma failure_with_sought_id (m : string) (v : JsValue) :
  failure_payload (Json (JObj (<["soughtId" := v]> (failure m)))).
Proof.
  destruct (failure_is_failure m) as [Ho [m' Hm]]. simpl. split.
  - by rewrite lookup_insert_ne.
  - exists m'. by rewrite lookup_insert_ne.
Qed.

(** Every response with status 400 or 404 is plain text or a JSON object
    with outcome failure and a message; the 200 of a delete or of a get
    by id carries a joke of the store, never a failure object. *)
Theorem failures_are_reported (req : Request) (s : Server) :
  match fst (handle req s) with
  | Crashed _ => True
  | Sent r =>
      if (status r =? 400) || (status r =? 404) then failure_payload (payload r)
      else
        match req with
        | DELETE_jokes_id _ | GET_jokes_id _ =>
            ∃ j, payload r = Json (JObj j) ∧ j ∈ allJokes s
        | _ => True
        end
  end.
Proof.
  destruct req as [| | | |id| |q| |id|body now|]; simpl; try done.
  - unfold handleGetFirstJoke. destruct (0 <? _)%nat; simpl; [done|].
    apply failure_is_failure.
  - unfold handleDeleteJoke. destruct id as [soughtId|]; simpl; [|done].
    unfold findIndex.
    destruct (findIndex_from_first
                (fun j => strict_equals (get_prop j "id") (parseInt soughtId))
                (allJokes s) 0)
      as [[-> _]|(l1 & j & l2 & Hl & _ & _ & ->)].
    + simpl. apply failure_is_failure.
    + assert ((0 + Z.of_nat (length l1) <? 0) = false) as -> by (apply Z.ltb_ge; lia).
      cbn [respond fst status payload Z.eqb Pos.eqb orb].
      exists j. rewrite Hl, js_index_middle.
      split; [done|]. apply elem_of_app. right. by left.
  - unfold handleJokesSearch, optional_toString, mbind, completion_bind.
    destruct q as [v|]; simpl; [|done].
    destruct (query_toString v) as [[|a t]|e]; simpl; try done.
    by destruct (js_filter _ _).
  - unfold handleGetJokeById, js_find.
    destruct (parseInt (default "" id)) as [|n|neg]; simpl.
    { apply failure_is_failure. }
    2:{ rewrite find_none_infinite.
        cbn [to_boolean negb respond fst status payload Z.eqb Pos.eqb orb].
        apply failure_with_sought_id. }
    pose proof (find_first (fun j => strict_equals (get_prop j "id") (Int n)) (allJokes s))
      as Hfind.
    destruct (List.find _ (allJokes s)) as [j|].
    + destruct Hfind as (l1 & l2 & Hl & _ & _). simpl.
      exists j. split; [done|]. rewrite Hl. apply elem_of_app. right. by left.
    + cbn [to_boolean negb respond fst status payload Z.eqb Pos.eqb orb].
      apply failure_with_sought_id.
  - by destruct body.
Qed.

(** ** Requests that only read *)

Lemma get_keeps_state (req : Request) (s : Server) :
  is_get req = true → snd (handle req s) = s.
Proof.
  intros Hget. pose proof (readers_keep_state req s) as Hread.
  by destruct req.
Qed.

(** Serving GET requests only, however many and whether or not a search
    among them throws, leaves the three bindings as they were. *)
Theorem gets_keep_state (reqs : list Request) (s : Server) :
  Forall (fun req => is_get req = true) reqs → snd (serve reqs s) = s.
Proof.
  induction 1 as [|req reqs Hreq Hreqs IH]; [done|].
  rewrite serve_cons. cbn [snd]. by rewrite get_keeps_state.
Qed.

(** Five GET requests, one of them a search that throws on a joke
    without texts. *)
Lemma gets_keep_state_witness :
  snd (serve [GET_jokes; GET_jokes_first; GET_jokes_search (Some (QStr "fish"));
              GET_jokes_random 7; GET_jokes_id (Some "1")]
             (init [fish; ∅]))
  = init [fish; ∅].
Proof. apply gets_keep_state. repeat constructor. Defined.

(** ** A random joke *)

(** The random route always answers 200 with an array of one element and
    changes nothing: the element is a joke of the store, or [undefined]
    when, and only when, the store is empty. *)
Theorem random_joke_is_from_store (r : nat) (s : Server) :
  snd (handleRequestForRandomJoke r s) = s
  ∧ ∃ v : JsValue,
      fst (handleRequestForRandomJoke r s) = Sent (mkResponse 200 (Json (JArr [v])))
      ∧ ((allJokes s = [] ∧ v = JUndefined)
         ∨ (allJokes s ≠ [] ∧ ∃ j, j ∈ allJokes s ∧ v = JObj j)).
Proof.
  split; [done|]. eexists. split; [reflexivity|].
  unfold sample, js_index. destruct (allJokes s) as [|j0 l] eqn:Hl.
  - left. split; [done|]. by destruct r.
  - right. split; [done|].
    destruct (lookup_lt_is_Some_2 (j0 :: l) (r `mod` length (j0 :: l))) as [j Hj].
    { apply Nat.mod_upper_bound. simpl. lia. }
    rewrite Hj. exists j. split; [|done]. by eapply list_elem_of_lookup_2.
Qed.

(** ** Deleting all jokes *)

(** After any requests, deleting all jokes answers 200 with outcome
    success and empties the store: listing then gives the empty array,
    first gives 404 and random gives an array holding [undefined].  The
    counter is not set back: the next create gets 10000000 plus the
    number of creates so far as id, and its joke is the only one in the
    store. *)
Theorem delete_all_empties_store
    (seed : list JsObject) (reqs : list Request) (o : JsObject) (now : string) (r : nat) :
  fst (handle DELETE_jokes (state_after reqs seed))
    = Sent (mkResponse 200 (Json (JObj (success "all jokes deleted"))))
  ∧ allJokes (snd (handle DELETE_jokes (state_after reqs seed))) = []
  ∧ fst (handle GET_jokes (snd (handle DELETE_jokes (state_after reqs seed))))
    = Sent (mkResponse 200 (Json (JArr [])))
  ∧ status_of (fst (handle GET_jokes_first
                      (snd (handle DELETE_jokes (state_after reqs seed)))))
    = Some 404
  ∧ fst (handle (GET_jokes_random r) (snd (handle DELETE_jokes (state_after reqs seed))))
    = Sent (mkResponse 200 (Json (JArr [JUndefined])))
  ∧ id_of <$> allJokes (snd (handle (POST_jokes (ObjectBody o) now)
                               (snd (handle DELETE_jokes (state_after reqs seed)))))
    = [Some (10000000 + Z.of_nat (length (assigned_ids reqs seed)))].
Proof.
  destruct (serve_counter reqs (init seed)) as [_ Hnext].
  unfold state_after, assigned_ids, outcomes. cbn [init nextJokeId] in Hnext.
  repeat split; try done.
  simpl. unfold id_of. by rewrite lookup_insert_ne, lookup_insert_eq, Hnext.
Qed.

(** ** The search on any store *)

Lemma call_includes_throws (v : JsValue) (t : string) :
  (∃ e, call_includes v t = Throw e) ↔ unreadable v.
Proof. destruct v; simpl; split; try done; try (by eexists); by intros [e ?]. Qed.

Lemma call_includes_cases (v : JsValue) (t : string) :
  unreadable v ∨ call_includes v t = Normal true ∨ call_includes v t = Normal false.
Proof.
  destruct v as [| | | |text|l|]; simpl; auto.
  - destruct (str_includes text t); auto.
  - destruct (existsb _ l); auto.
Qed.

Lemma joke_matches_throws (t : string) (j : JsObject) :
  (∃ e, joke_matches t j = Throw e) ↔ test_throws t j.
Proof.
  unfold joke_matches, test_throws, mbind, completion_bind, mret, completion_ret.
  pose proof (call_includes_throws (get_prop j "setup") t) as Hs.
  pose proof (call_includes_throws (get_prop j "punchline") t) as Hp.
  destruct (call_includes (get_prop j "setup") t) as [[|]|e].
  - split; [by intros [e ?]|]. intros [Hu|[? _]]; [|done].
    apply Hs in Hu as [e ?]. done.
  - rewrite Hp. split; [intros Hu; right; by split|].
    intros [Hu|[_ Hu]]; [|done]. apply Hs in Hu as [e ?]. done.
  - split; [|intros _; by eexists]. intros _. left. apply Hs. by eexists.
Qed.

Lemma joke_matches_holds (t : string) (j : JsObject) :
  joke_matches t j = Normal true ↔ test_holds t j.
Proof.
  unfold joke_matches, test_holds, mbind, completion_bind, mret, completion_ret.
  destruct (call_includes (get_prop j "setup") t) as [[|]|e]; split; try done.
  - intros _. by left.
  - intros He. right. by split.
  - by intros [?|[_ He]].
  - by intros [?|[? _]].
Qed.

(** What a filter with a test that may throw does: it throws when the
    test throws on some element, and otherwise keeps, in order, the
    elements the test holds of. *)
Lemma js_filter_cases (p : JsObject → Completion bool) (l : list JsObject) :
  match js_filter p l with
  | Throw _ => ∃ j e, j ∈ l ∧ p j = Throw e
  | Normal found =>
      (∀ j, j ∈ l → ∃ b, p j = Normal b)
      ∧ found `sublist_of` l
      ∧ (∀ j, j ∈ found ↔ j ∈ l ∧ p j = Normal true)
  end.
Proof.
  induction l as [|j l IH]; simpl.
  - split; [by intros j ?%elem_of_nil|]. split; [done|].
    intros j. split; [by intros ?%elem_of_nil|by intros [?%elem_of_nil _]].
  - unfold mbind, completion_bind, mret, completion_ret.
    destruct (p j) as [b|e] eqn:Hj.
    2:{ exists j, e. split; [by left|done]. }
    destruct (js_filter p l) as [found|e].
    2:{ destruct IH as (j' & e' & Hin & Hthrow). exists j', e'. split; [by right|done]. }
    destruct IH as (Hall & Hsub & Hmem). split; [|split].
    + intros j' [->|Hin]%elem_of_cons; [by eexists|by apply Hall].
    + destruct b; [by apply sublist_skip|by apply sublist_cons].
    + intros j'. destruct b.
      * rewrite !elem_of_cons, Hmem. split; [|tauto].
        intros [->|Hin]; [|tauto]. split; [by left|done].
      * rewrite elem_of_cons, Hmem. split; [tauto|].
        intros [[->|Hin] Htrue]; [congruence|done].
Qed.

(** A search with a term that is not empty, on any store whatever its
    jokes hold: it throws only if the test throws on some joke of the
    store, and otherwise answers 200 with a sublist of the store, made of
    the jokes the test holds of; no joke makes the test throw then.  A
    joke whose setup has the term is found without its punchline being
    read. *)
Theorem search_on_any_store (t : string) (s : Server) :
  t ≠ "" →
  match fst (handleJokesSearch (Some (QStr t)) s) with
  | Crashed _ => ∃ j, j ∈ allJokes s ∧ test_throws t j
  | Sent r =>
      (∀ j, j ∈ allJokes s → ¬ test_throws t j)
      ∧ ∃ found,
          r = mkResponse 200 (Json (arrayOf found))
          ∧ found `sublist_of` allJokes s
          ∧ (∀ j, j ∈ found ↔ j ∈ allJokes s ∧ test_holds t j)
  end.
Proof.
  intros Ht. unfold handleJokesSearch. simpl.
  assert (negb (negb (String.eqb t "")) = false) as ->.
  { destruct t; [done|reflexivity]. }
  pose proof (js_filter_cases (joke_matches t) (allJokes s)) as Hcases.
  destruct (js_filter (joke_matches t) (allJokes s)) as [found|e]; simpl.
  - destruct Hcases as (Hall & Hsub & Hmem). split.
    + intros j Hin [e He]%joke_matches_throws.
      destruct (Hall j Hin) as [b Hb]. congruence.
    + exists found. split; [done|]. split; [done|].
      intros j. by rewrite Hmem, joke_matches_holds.
  - destruct Hcases as (j & e' & Hin & Hthrow). exists j. split; [done|].
    apply joke_matches_throws. by eexists.
Qed.

(** The search for fish on the fish joke stripped of its punchline: the
    setup has the term, so the joke is found and nothing throws. *)
Lemma search_on_any_store_witness :
  match fst (handleJokesSearch (Some (QStr "fish")) (init [delete "punchline" fish])) with
  | Crashed _ =>
      ∃ j, j ∈ allJokes (init [delete "punchline" fish]) ∧ test_throws "fish" j
  | Sent r =>
      (∀ j, j ∈ allJokes (init [delete "punchline" fish]) → ¬ test_throws "fish" j)
      ∧ ∃ found,
          r = mkResponse 200 (Json (arrayOf found))
          ∧ found `sublist_of` allJokes (init [delete "punchline" fish])
          ∧ (∀ j, j ∈ found
                  ↔ j ∈ allJokes (init [delete "punchline" fish]) ∧ test_holds "fish" j)
  end.
Proof. apply (search_on_any_store "fish" (init [delete "punchline" fish])). discriminate. Defined.

Example search_reads_punchline_only_if_needed :
  fst (handleJokesSearch (Some (QStr "fish")) (init [delete "punchline" fish]))
    = Sent (mkResponse 200 (Json (arrayOf [delete "punchline" fish])))
  ∧ fst (handleJokesSearch (Some (QStr "Dam")) (init [delete "punchline" fish]))
    = Crashed (TypeError "Cannot read properties of undefined (reading 'includes')").
Proof. split; vm_compute; reflexivity. Qed.

(** ** Runs on jokes that have their texts *)

Lemma has_texts_created (o : JsObject) (n : Z) (now : string) :
  has_texts o → has_texts (<["timestamp" := JStr now]> (<["id" := JNum n]> o)).
Proof.
  intros (setup & punchline & Hs & Hp). exists setup, punchline.
  by rewrite !lookup_insert_ne.
Qed.

Lemma has_texts_handle (req : Request) (s : Server) :
  Forall has_texts (originalJokesList s) →
  Forall has_texts (allJokes s) →
  body_has_texts req →
  Forall has_texts (allJokes (snd (handle req s))).
Proof.
  intros Hseed Hstore Hbody. pose proof (readers_keep_state req s) as Hread.
  destruct req as [| | | |id| |q| |id|body now|]; try (by rewrite Hread).
  - destruct (handleDeleteJoke_store id s) as (_ & _ & [Hsame|[i Hdel]]); simpl.
    + by rewrite Hsame.
    + rewrite Hdel. by apply Forall_delete.
  - constructor.
  - destruct body as [| |o]; [done..|]. simpl. apply Forall_app. split; [done|].
    constructor; [|constructor]. by apply has_texts_created.
  - done.
Qed.

(** When the bundled jokes have a string for setup and for punchline,
    every create sends an object that has them too, and no search sends
    a term whose [toString] throws (an object with a property named
    [toString]), no request of the run throws: each gets a response. *)
Theorem runs_with_texts_never_throw (seed : list JsObject) (reqs : list Request) :
  Forall has_texts seed →
  Forall body_has_texts reqs →
  Forall term_prints reqs →
  Forall (fun out => ∃ r, out = Sent r) (outcomes reqs seed).
Proof.
  intros Hseed Hreqs Hterms. unfold outcomes. revert Hterms.
  assert (Hgen : ∀ s, Forall has_texts (originalJokesList s) →
                      Forall has_texts (allJokes s) →
                      Forall term_prints reqs →
                      Forall (fun out => ∃ r, out = Sent r) (fst (serve reqs s))).
  { induction Hreqs as [|req reqs Hreq Hreqs IH]; intros s Ho Hs Hterms; [constructor|].
    apply Forall_cons in Hterms as [Hterm Hterms].
    rewrite serve_cons. cbn [fst]. constructor.
    - by apply no_throw_with_texts.
    - apply IH; [by rewrite handle_seed|by apply has_texts_handle|done]. }
  intros Hterms. by apply Hgen.
Qed.

Lemma runs_with_texts_never_throw_witness :
  Forall (fun out => ∃ r, out = Sent r)
    (outcomes [POST_jokes (ObjectBody pun) "Mon"; GET_jokes_search (Some (QStr "Why"));
               DELETE_jokes_id (Some "1"); GET_jokes_search (Some (QStr "fish"));
               POST_jokes_reset;
               GET_jokes_search (Some (QArr [QStr "Dam"; QObj [("a", QStr "b")]]))]
              [fish]).
Proof.
  apply runs_with_texts_never_throw.
  - repeat constructor; eexists _, _; split; vm_compute; reflexivity.
  - repeat constructor; eexists _, _; split; vm_compute; reflexivity.
  - repeat constructor; by eexists.
Defined.

(** ** Get by id and delete by id look for the same joke *)

(** [find] and [findIndex] with the same test stop at the same place. *)
Lemma find_findIndex (p : JsObject → bool) (l : list JsObject) (k : Z) :
  match List.find p l with
  | Some j =>
      ∃ l1 l2, l = l1 ++ j :: l2 ∧ p j = true
               ∧ Forall (fun j' => p j' = false) l1
               ∧ findIndex_from p l k = k + Z.of_nat (length l1)
  | None => Forall (fun j' => p j' = false) l ∧ findIndex_from p l k = -1
  end.
Proof.
  revert k. induction l as [|x l IH]; intros k; simpl; [done|].
  destruct (p x) eqn:Hx.
  - exists [], l. simpl. repeat split; [done..|lia].
  - specialize (IH (k + 1)). destruct (List.find p l) as [j|].
    + destruct IH as (l1 & l2 & -> & Hj & Hl1 & Hi). exists (x :: l1), l2.
      simpl. repeat split; [done|by constructor|lia].
    + destruct IH as [Hall Hi]. split; [by constructor|done].
Qed.

(** What a delete by id does, told with [find]. *)
Lemma handleDeleteJoke_find (soughtId : string) (s : Server) :
  match List.find (fun j => strict_equals (get_prop j "id") (parseInt soughtId))
                  (allJokes s) with
  | Some j =>
      ∃ l1 l2,
        allJokes s = l1 ++ j :: l2
        ∧ Forall (fun j' => strict_equals (get_prop j' "id") (parseInt soughtId) = false) l1
        ∧ handleDeleteJoke (Some soughtId) s
          = (Sent (mkResponse 200 (Json (JObj j))),
             {| originalJokesList := originalJokesList s;
                allJokes := l1 ++ l2;
                nextJokeId := nextJokeId s |})
  | None =>
      handleDeleteJoke (Some soughtId) s
      = (Sent (mkResponse 404 (Json (JObj (failure "joke not found")))), s)
  end.
Proof.
  unfold handleDeleteJoke, findIndex.
  pose proof (find_findIndex
                (fun j => strict_equals (get_prop j "id") (parseInt soughtId))
                (allJokes s) 0) as Hfind.
  destruct (List.find _ (allJokes s)) as [j|].
  - destruct Hfind as (l1 & l2 & Hl & Hj & Hl1 & Hi). exists l1, l2.
    rewrite Hi. split; [done|]. split; [done|].
    assert ((0 + Z.of_nat (length l1) <? 0) = false) as -> by (apply Z.ltb_ge; lia).
    by rewrite Hl, js_index_middle, splice1_middle.
  - destruct Hfind as [_ ->]. done.
Qed.

Lemma find_NaN (l : list JsObject) :
  List.find (fun j => strict_equals (get_prop j "id") NaN) l = None.
Proof. induction l as [|x l IH]; simpl; [done|]. by rewrite strict_equals_NaN. Qed.

(** For one and the same path parameter, get by id answers 200 exactly
    when delete by id does, and both then carry the same joke of the
    store; when get by id answers 400 or 404, delete by id answers 404
    and changes nothing. *)
Theorem get_and_delete_agree (soughtId : string) (s : Server) :
  (∃ j, j ∈ allJokes s
        ∧ fst (handleGetJokeById (Some soughtId) s)
          = Sent (mkResponse 200 (Json (JObj j)))
        ∧ fst (handleDeleteJoke (Some soughtId) s)
          = Sent (mkResponse 200 (Json (JObj j))))
  ∨ ((status_of (fst (handleGetJokeById (Some soughtId) s)) = Some 400
      ∨ status_of (fst (handleGetJokeById (Some soughtId) s)) = Some 404)
     ∧ status_of (fst (handleDeleteJoke (Some soughtId) s)) = Some 404
     ∧ snd (handleDeleteJoke (Some soughtId) s) = s).
Proof.
  pose proof (handleDeleteJoke_find soughtId s) as Hdel.
  unfold handleGetJokeById, js_find.
  change (default "" (Some soughtId)) with soughtId.
  destruct (parseInt soughtId) as [|n|neg] eqn:Hn; cbn [isNaN].
  - rewrite find_NaN in Hdel. rewrite Hdel. simpl. right. split; [by left|done].
  - destruct (List.find _ (allJokes s)) as [j|].
    + destruct Hdel as (l1 & l2 & Hl & _ & ->). simpl. left. exists j.
      split; [|done]. rewrite Hl. apply elem_of_app. right. by left.
    + rewrite Hdel. simpl. right. split; [by right|done].
  - rewrite find_none_infinite in Hdel |- *. rewrite Hdel. simpl.
    right. split; [by right|done].
Qed.

(** ** How the store is laid out *)

Lemma Forall_sublist_of (P : JsObject → Prop) (l k : list JsObject) :
  l `sublist_of` k → Forall P k → Forall P l.
Proof.
  intros Hsub Hk. apply Forall_forall. intros j Hj.
  rewrite Forall_forall in Hk. apply Hk. by eapply elem_of_sublist.
Qed.

Lemma StronglySorted_sublist_of (R : JsObject → JsObject → Prop) (l k : list JsObject) :
  l `sublist_of` k → StronglySorted R k → StronglySorted R l.
Proof.
  induction 1 as [|x l k Hsub IH|x l k Hsub IH]; intros Hk; [done| |].
  - apply StronglySorted_inv in Hk as [Hk Hx]. constructor; [by apply IH|].
    rewrite List.Forall_forall. rewrite List.Forall_forall in Hx.
    intros y Hy. apply Hx. apply list_elem_of_In.
    eapply elem_of_sublist; [|done]. by apply list_elem_of_In.
  - apply StronglySorted_inv in Hk as [Hk _]. by apply IH.
Qed.

Lemma StronglySorted_snoc (R : JsObject → JsObject → Prop) (l : list JsObject)
    (y : JsObject) :
  StronglySorted R l → Forall (fun x => R x y) l → StronglySorted R (l ++ [y]).
Proof.
  induction 1 as [|x l Hl IH Hx]; intros Hy; simpl.
  - repeat constructor.
  - apply Forall_cons in Hy as [Hxy Hy]. constructor; [by apply IH|].
    apply List.Forall_app. split; [done|]. by constructor.
Qed.

Lemma created_below_weaken (b1 b2 : Z) (j : JsObject) :
  b1 ≤ b2 → created_below b1 j → created_below b2 j.
Proof.
  intros Hb (n & now & Hid & Hn & Hts). exists n, now. repeat split; [done|lia..|done].
Qed.

Section Layout.

Variable seed : list JsObject.

(** The layout together with what keeps it: the bundled data is not
    changed and the counter does not fall below its seed. *)
Let laid_out (s : Server) : Prop :=
  originalJokesList s = seed ∧ 10000000 ≤ nextJokeId s ∧ layout seed s.

Lemma laid_out_init : laid_out (init seed).
Proof.
  split; [done|]. split; [simpl; lia|]. exists seed, []. simpl. rewrite app_nil_r.
  split; [done|]. split; [done|]. split; constructor.
Qed.

Lemma laid_out_sublist (s : Server) (l : list JsObject) :
  laid_out s →
  l `sublist_of` allJokes s →
  laid_out {| originalJokesList := originalJokesList s;
              allJokes := l;
              nextJokeId := nextJokeId s |}.
Proof.
  intros (Hseed & Hlow & kept & created & Hl & Hkept & Hcreated & Hsorted) Hsub.
  repeat split; [done..|]. rewrite Hl in Hsub.
  apply sublist_app_r in Hsub as (kept' & created' & -> & Hk' & Hc').
  exists kept', created'. simpl. split; [done|]. split; [|split].
  - by etrans.
  - by eapply Forall_sublist_of.
  - by eapply StronglySorted_sublist_of.
Qed.

Lemma laid_out_handle (req : Request) (s : Server) :
  laid_out s → laid_out (snd (handle req s)).
Proof.
  intros Hs. pose proof (readers_keep_state req s) as Hread.
  destruct req as [| | | |id| |q| |id|body now|]; try (by rewrite Hread).
  - (* delete by id *)
    destruct (handleDeleteJoke_store id s) as (Ho & Hn & Hstore). cbn [handle].
    destruct (snd (handleDeleteJoke id s)) as [o l n].
    simpl in Ho, Hn, Hstore. subst o n.
    apply laid_out_sublist; [done|].
    destruct Hstore as [->|[i ->]]; [done|apply sublist_delete].
  - (* delete all *)
    apply (laid_out_sublist s []); [done|apply sublist_nil_l].
  - (* create *)
    destruct body as [| |o]; [done..|].
    destruct Hs as (Hseed & Hlow & kept & created & Hl & Hkept & Hcreated & Hsorted).
    split; [done|]. split; [simpl; lia|]. simpl.
    set (j := <["timestamp" := JStr now]> (<["id" := JNum (nextJokeId s)]> o)).
    assert (Hid : has_id (nextJokeId s) j).
    { unfold has_id, j. by rewrite lookup_insert_ne, lookup_insert_eq. }
    exists kept, (created ++ [j]). cbn [allJokes nextJokeId]. rewrite Hl, <- app_assoc.
    split; [done|]. split; [done|]. split.
    + apply Forall_app. split.
      * eapply Forall_impl; [exact Hcreated|]. intros j'.
        apply (created_below_weaken (nextJokeId s)). lia.
      * constructor; [|constructor]. exists (nextJokeId s), now.
        split; [done|]. split; [lia|]. unfold j. by rewrite lookup_insert_eq.
    + apply StronglySorted_snoc; [done|].
      eapply Forall_impl; [exact Hcreated|]. intros j' (n & now' & Hid' & Hn & _).
      exists n, (nextJokeId s). split; [done|]. split; [done|lia].
  - (* reset *)
    destruct Hs as (Hseed & Hlow & _). split; [done|]. split; [done|].
    exists seed, []. simpl. rewrite app_nil_r, Hseed.
    split; [done|]. split; [done|]. split; constructor.
Qed.

Lemma laid_out_serve (reqs : list Request) (s : Server) :
  laid_out s → laid_out (snd (serve reqs s)).
Proof.
  revert s. induction reqs as [|req reqs IH]; intros s Hs; [done|].
  rewrite serve_cons. cbn [snd]. apply IH. by apply laid_out_handle.
Qed.

Lemma layout_serve (reqs : list Request) :
  originalJokesList (state_after reqs seed) = seed
  ∧ 10000000 ≤ nextJokeId (state_after reqs seed)
  ∧ layout seed (state_after reqs seed).
Proof. apply laid_out_serve, laid_out_init. Qed.

End Layout.

(** After any requests the store is laid out as follows: first jokes of
    the bundled data, in the order they have there, then jokes made by
    creates, each with a timestamp and an integer id from 10000000 up to
    the counter, in increasing order of id.  The bundled data itself is
    never changed. *)
Theorem store_layout (seed : list JsObject) (reqs : list Request) :
  originalJokesList (state_after reqs seed) = seed
  ∧ layout seed (state_after reqs seed).
Proof. destruct (layout_serve seed reqs) as (? & _ & ?). done. Qed.

(** ** A created joke can be fetched and deleted by its id *)

(** After any requests no integer id in the store has reached the
    counter, provided the integer ids of the bundled data are below the
    counter's seed. *)
Lemma ids_below_counter (seed : list JsObject) (reqs : list Request) :
  seed_ids_small seed →
  ids_below (nextJokeId (state_after reqs seed)) (allJokes (state_after reqs seed)).
Proof.
  intros Hsmall.
  destruct (layout_serve seed reqs)
    as (_ & Hlow & kept & created & -> & Hkept & Hcreated & _).
  apply Forall_app. split.
  - apply (Forall_sublist_of _ kept seed Hkept).
    eapply Forall_impl; [exact Hsmall|]. intros j Hj n Hid. specialize (Hj n Hid). lia.
  - eapply Forall_impl; [exact Hcreated|].
    intros j (n & now & Hid & Hn & _) n' Hid'. unfold has_id in *.
    rewrite Hid in Hid'. injection Hid' as <-. lia.
Qed.

(** With no id of the store at [n] yet, a joke with id [n] put at the end
    is the first one a lookup of [n] finds. *)
Lemma find_new_last (n : Z) (l : list JsObject) (j : JsObject) :
  ids_below n l → has_id n j →
  List.find (fun j' => strict_equals (get_prop j' "id") (Int n)) (l ++ [j]) = Some j
  ∧ Forall (fun j' => strict_equals (get_prop j' "id") (Int n) = false) l.
Proof.
  intros Hbelow Hid.
  assert (Hnone : Forall (fun j' => strict_equals (get_prop j' "id") (Int n) = false) l).
  { eapply Forall_impl; [exact Hbelow|]. intros j' Hj'.
    destruct (strict_equals (get_prop j' "id") (Int n)) eqn:Heq; [|done].
    apply strict_equals_has_id in Heq. specialize (Hj' n Heq). lia. }
  split; [|done]. induction Hnone as [|x l Hx Hl IH]; simpl.
  - apply strict_equals_has_id in Hid. by rewrite Hid.
  - rewrite Hx. apply IH. by apply Forall_cons in Hbelow as [_ ?].
Qed.

(** A list whose last element is its first match splits in one way
    only. *)
Lemma first_match_last (p : JsObject → bool) (l l1 l2 : list JsObject) (j : JsObject) :
  Forall (fun j' => p j' = false) l → p j = true →
  l ++ [j] = l1 ++ j :: l2 → Forall (fun j' => p j' = false) l1 →
  l1 = l ∧ l2 = [].
Proof.
  intros Hl Hj. revert l1. induction Hl as [|x l Hx Hl IH]; intros l1 Heq Hl1.
  - destruct l1 as [|y l1]; simplify_eq/=; [done|]. by destruct l1.
  - destruct l1 as [|y l1]; simpl in Heq; injection Heq as -> Heq; [congruence|].
    apply Forall_cons in Hl1 as [_ Hl1].
    destruct (IH l1 Heq Hl1) as [-> ->]. done.
Qed.

(** When the integer ids of the bundled data are below 10000000, then
    after any requests a create followed by a get by id, with a path
    parameter that reads as the id just assigned, answers 200 with the
    very joke the create returned. *)
Theorem created_joke_can_be_fetched
    (seed : list JsObject) (reqs : list Request) (o : JsObject) (now soughtId : string) :
  seed_ids_small seed →
  parseInt soughtId = Int (nextJokeId (state_after reqs seed)) →
  ∃ j : JsObject,
    fst (handle (POST_jokes (ObjectBody o) now) (state_after reqs seed))
      = Sent (mkResponse 201 (Json (JObj j)))
    ∧ fst (handle (GET_jokes_id (Some soughtId))
             (snd (handle (POST_jokes (ObjectBody o) now) (state_after reqs seed))))
      = Sent (mkResponse 200 (Json (JObj j))).
Proof.
  intros Hsmall Hparse. pose proof (ids_below_counter seed reqs Hsmall) as Hbelow.
  set (s := state_after reqs seed) in *.
  set (j := <["timestamp" := JStr now]> (<["id" := JNum (nextJokeId s)]> o)).
  assert (Hid : has_id (nextJokeId s) j).
  { unfold has_id, j. by rewrite lookup_insert_ne, lookup_insert_eq. }
  exists j. split; [done|].
  cbn [handle handleRequestForPOSTJoke respond snd].
  unfold handleGetJokeById, js_find. change (default "" (Some soughtId)) with soughtId.
  rewrite Hparse. cbn [isNaN allJokes]. fold j.
  destruct (find_new_last _ _ _ Hbelow Hid) as [-> _]. done.
Qed.

Lemma created_joke_can_be_fetched_witness :
  ∃ j : JsObject,
    fst (handle (POST_jokes (ObjectBody pun) "Tue")
           (state_after [POST_jokes (ObjectBody pun) "Mon"; DELETE_jokes] [fish]))
      = Sent (mkResponse 201 (Json (JObj j)))
    ∧ fst (handle (GET_jokes_id (Some "10000001"))
             (snd (handle (POST_jokes (ObjectBody pun) "Tue")
                     (state_after [POST_jokes (ObjectBody pun) "Mon"; DELETE_jokes]
                                  [fish]))))
      = Sent (mkResponse 200 (Json (JObj j))).
Proof.
  apply created_joke_can_be_fetched.
  - constructor; [|constructor]. intros n Hid. unfold has_id in Hid.
    rewrite fish_id in Hid. injection Hid as <-. lia.
  - vm_compute. reflexivity.
Defined.

(** Under the same condition a create followed by a delete by the id
    just assigned gives the created joke back and leaves the store as it
    was before the create; the counter stays one up. *)
Theorem create_then_delete_restores_store
    (seed : list JsObject) (reqs : list Request) (o : JsObject) (now soughtId : string) :
  seed_ids_small seed →
  parseInt soughtId = Int (nextJokeId (state_after reqs seed)) →
  fst (handle (DELETE_jokes_id (Some soughtId))
         (snd (handle (POST_jokes (ObjectBody o) now) (state_after reqs seed))))
    = Sent (mkResponse 200
        (Json (JObj (<["timestamp" := JStr now]>
                       (<["id" := JNum (nextJokeId (state_after reqs seed))]> o)))))
  ∧ allJokes (snd (handle (DELETE_jokes_id (Some soughtId))
                     (snd (handle (POST_jokes (ObjectBody o) now)
                             (state_after reqs seed)))))
    = allJokes (state_after reqs seed)
  ∧ nextJokeId (snd (handle (DELETE_jokes_id (Some soughtId))
                       (snd (handle (POST_jokes (ObjectBody o) now)
                               (state_after reqs seed)))))
    = nextJokeId (state_after reqs seed) + 1.
Proof.
  intros Hsmall Hparse. pose proof (ids_below_counter seed reqs Hsmall) as Hbelow.
  set (s := state_after reqs seed) in *.
  set (j := <["timestamp" := JStr now]> (<["id" := JNum (nextJokeId s)]> o)).
  assert (Hid : has_id (nextJokeId s) j).
  { unfold has_id, j. by rewrite lookup_insert_ne, lookup_insert_eq. }
  cbn [handle handleRequestForPOSTJoke respond snd]. fold j.
  pose proof (handleDeleteJoke_find soughtId
                {| originalJokesList := originalJokesList s;
                   allJokes := allJokes s ++ [j];
                   nextJokeId := nextJokeId s + 1 |}) as Hdel.
  rewrite Hparse in Hdel. cbn [allJokes] in Hdel.
  destruct (find_new_last _ _ _ Hbelow Hid) as [Hfind Hnone]. rewrite Hfind in Hdel.
  destruct Hdel as (l1 & l2 & Hl & Hl1 & ->). cbn [fst snd allJokes nextJokeId].
  split; [done|]. split; [|done].
  destruct (first_match_last _ _ _ _ _ Hnone (proj2 (strict_equals_has_id _ _) Hid)
              Hl Hl1) as [-> ->].
  by rewrite app_nil_r.
Qed.

Lemma create_then_delete_restores_store_witness :
  allJokes (snd (handle (DELETE_jokes_id (Some "10000001"))
                   (snd (handle (POST_jokes (ObjectBody pun) "Tue")
                           (state_after [POST_jokes (ObjectBody pun) "Mon"] [fish])))))
  = allJokes (state_after [POST_jokes (ObjectBody pun) "Mon"] [fish]).
Proof.
  apply (create_then_delete_restores_store [fish] [POST_jokes (ObjectBody pun) "Mon"]).
  - constructor; [|constructor]. intros n Hid. unfold has_id in Hid.
    rewrite fish_id in Hid. injection Hid as <-. lia.
  - vm_compute. reflexivity.
Defined.

(** ** A deleted joke is gone *)

(** In a store whose ids are pairwise distinct, once a delete by id has
    answered 200, a get by id and a second delete with the same path
    parameter both answer 404. *)
Theorem deleted_joke_is_gone (soughtId : string) (s : Server) :
  NoDup (ids (allJokes s)) →
  status_of (fst (handleDeleteJoke (Some soughtId) s)) = Some 200 →
  status_of (fst (handleGetJokeById (Some soughtId)
                    (snd (handleDeleteJoke (Some soughtId) s)))) = Some 404
  ∧ status_of (fst (handleDeleteJoke (Some soughtId)
                      (snd (handleDeleteJoke (Some soughtId) s)))) = Some 404.
Proof.
  intros Hnodup Hok. pose proof (handleDeleteJoke_find soughtId s) as Hdel.
  destruct (List.find _ (allJokes s)) as [j|] eqn:Hfind.
  2:{ rewrite Hdel in Hok. done. }
  destruct Hdel as (l1 & l2 & Hl & Hl1 & Hdel).
  apply find_some in Hfind as [_ Hj]. rewrite Hdel. cbn [snd].
  destruct (parseInt soughtId) as [|n|neg] eqn:Hn;
    [by rewrite strict_equals_NaN in Hj| |by rewrite strict_equals_infinite in Hj].
  apply strict_equals_has_id in Hj.
  assert (Hrest : List.find (fun j' => strict_equals (get_prop j' "id") (Int n))
                    (l1 ++ l2) = None).
  { destruct (List.find _ (l1 ++ l2)) as [j'|] eqn:Hfind'; [|done]. exfalso.
    apply find_some in Hfind' as [Hin Hj']. apply strict_equals_has_id in Hj'.
    apply list_elem_of_In in Hin.
    rewrite Hl in Hnodup. unfold ids in Hnodup. rewrite fmap_app, fmap_cons in Hnodup.
    apply NoDup_app in Hnodup as (_ & Hdisj & Hr).
    apply NoDup_cons in Hr as [Hnotin _].
    apply elem_of_app in Hin as [Hin|Hin].
    - apply (Hdisj (j' !! "id")); [by apply list_elem_of_fmap_2|].
      unfold has_id in Hj, Hj'. rewrite Hj', <- Hj. by left.
    - apply Hnotin. unfold has_id in Hj, Hj'. rewrite Hj, <- Hj'.
      by apply list_elem_of_fmap_2. }
  split.
  - unfold handleGetJokeById, js_find. change (default "" (Some soughtId)) with soughtId.
    rewrite Hn. cbn [isNaN allJokes]. by rewrite Hrest.
  - pose proof (handleDeleteJoke_find soughtId
                  {| originalJokesList := originalJokesList s;
                     allJokes := l1 ++ l2;
                     nextJokeId := nextJokeId s |}) as Hdel2.
    rewrite Hn in Hdel2. cbn [allJokes] in Hdel2. rewrite Hrest in Hdel2.
    by rewrite Hdel2.
Qed.

Lemma deleted_joke_is_gone_witness :
  status_of (fst (handleGetJokeById (Some "1")
                    (snd (handleDeleteJoke (Some "1") (init [pun; fish]))))) = Some 404
  ∧ status_of (fst (handleDeleteJoke (Some "1")
                      (snd (handleDeleteJoke (Some "1") (init [pun; fish]))))) = Some 404.
Proof.
  apply deleted_joke_is_gone.
  - assert (ids (allJokes (init [pun; fish])) = [None; Some (JNum 1)]) as ->
      by (vm_compute; reflexivity).
    repeat constructor; rewrite ?elem_of_cons, ?elem_of_nil; intros Hin;
      decompose [or] Hin; done.
  - vm_compute. reflexivity.
Defined.

(** ** The older module beside the current one *)

Lemma older_state_agrees (req : Older.Request) (s : Server) :
  snd (Older.handle req s) = snd (handle (to_current req) s).
Proof.
  destruct req as [| | | |id|q| |body now]; simpl; try done.
  - unfold handleGetFirstJoke. by case_match.
  - unfold Older.handleDeleteJoke, handleDeleteJoke.
    destruct id as [soughtId|]; [|done]. by case_match.
Qed.


Lemma older_serve_agrees (reqs : list Older.Request) (s : Server) :
  snd (Older.serve reqs s) = snd (serve (to_current <$> reqs) s).
Proof.
  revert s. induction reqs as [|req reqs IH]; intros s; [done|].
  rewrite fmap_cons, serve_cons. cbn [snd Older.serve].
  rewrite <- older_state_agrees.
  destruct (Older.handle req s) as [out s1]. cbn [snd].
  rewrite <- IH. by destruct (Older.serve reqs s1).
Qed.

(** In the older module, where [allJokes] is the bundled array itself
    and nothing restores it: when the ids of the bundled data are
    pairwise distinct and those that are integers are below 10000000,
    the ids in the array stay pairwise distinct whatever requests are
    served, and the counter never falls below its seed. *)
Theorem older_ids_distinct (seed : list JsObject) (reqs : list Older.Request) :
  NoDup (ids seed) →
  seed_ids_small seed →
  NoDup (ids (allJokes (snd (Older.serve reqs (init seed)))))
  ∧ 10000000 ≤ nextJokeId (snd (Older.serve reqs (init seed))).
Proof.
  intros Hdup Hsmall. rewrite older_serve_agrees.
  destruct (store_ok_serve seed Hdup Hsmall (to_current <$> reqs) (init seed))
    as (_ & Hlow & Hnodup & _); [by apply store_ok_init|done].
Qed.

Lemma older_ids_distinct_witness :
  NoDup (ids (allJokes (snd (Older.serve
    [Older.POST_jokes (ObjectBody pun) "Mon"; Older.DELETE_jokes_id (Some "1");
     Older.GET_jokes_tag (Some (QStr "Why")); Older.POST_jokes (ObjectBody fish) "Tue"]
    (init [fish])))))
  ∧ 10000000 ≤ nextJokeId (snd (Older.serve
    [Older.POST_jokes (ObjectBody pun) "Mon"; Older.DELETE_jokes_id (Some "1");
     Older.GET_jokes_tag (Some (QStr "Why")); Older.POST_jokes (ObjectBody fish) "Tue"]
    (init [fish]))).
Proof.
  apply (older_ids_distinct [fish]).
  - apply NoDup_singleton.
  - constructor; [|constructor]. intros n Hid. unfold has_id in Hid.
    rewrite fish_id in Hid. injection Hid as <-. lia.
Defined.

(** One request of the older module drops at most one joke, or puts one
    joke with the counter's value as id at the end. *)
Lemma older_handle_store (req : Older.Request) (s : Server) :
  (allJokes (snd (Older.handle req s)) `sublist_of` allJokes s
   ∧ nextJokeId (snd (Older.handle req s)) = nextJokeId s)
  ∨ (∃ j, allJokes (snd (Older.handle req s)) = allJokes s ++ [j]
          ∧ has_id (nextJokeId s) j
          ∧ nextJokeId (snd (Older.handle req s)) = nextJokeId s + 1).
Proof.
  rewrite older_state_agrees.
  pose proof (readers_keep_state (to_current req) s) as Hread.
  destruct req as [| | | |id|q| |body now]; cbn [to_current] in Hread |- *;
    try (left; by rewrite Hread).
  - left. cbn [handle]. destruct (handleDeleteJoke_store id s) as (_ & -> & [->|[i ->]]);
      split; try done. apply sublist_delete.
  - cbn [handle]. destruct body as [| |o]; [by left..|]. right. eexists. split; [done|].
    split; [|done]. unfold has_id. by rewrite lookup_insert_ne, lookup_insert_eq.
Qed.

(** With no reset in the older module, a joke that has been deleted
    never comes back: whatever requests are served from any bindings,
    the array then holds some of the jokes it held before, in their
    order, followed by jokes whose ids are integers the counter has
    passed in between. *)
Theorem older_jokes_only_leave (reqs : list Older.Request) (s : Server) :
  nextJokeId s ≤ nextJokeId (snd (Older.serve reqs s))
  ∧ ∃ kept created : list JsObject,
      allJokes (snd (Older.serve reqs s)) = kept ++ created
      ∧ kept `sublist_of` allJokes s
      ∧ Forall (fun j => ∃ n, has_id n j
                           ∧ nextJokeId s ≤ n < nextJokeId (snd (Older.serve reqs s)))
               created.
Proof.
  revert s. induction reqs as [|req reqs IH]; intros s.
  - split; [done|]. exists (allJokes s), []. by rewrite app_nil_r.
  - assert (Hstep : snd (Older.serve (req :: reqs) s)
                    = snd (Older.serve reqs (snd (Older.handle req s)))).
    { simpl. destruct (Older.handle req s) as [out s1]. simpl.
      by destruct (Older.serve reqs s1). }
    rewrite Hstep. destruct (IH (snd (Older.handle req s)))
      as (Hmono & kept & created & Hl & Hkept & Hcreated).
    destruct (older_handle_store req s) as [[Hsub Hn]|(j & Hs1 & Hid & Hn)];
      rewrite Hn in *.
    + split; [done|]. exists kept, created. split; [done|]. split; [by etrans|done].
    + split; [lia|]. rewrite Hs1 in Hkept.
      apply sublist_app_r in Hkept as (k1 & k2 & -> & Hk1 & Hk2).
      exists k1, (k2 ++ created). rewrite Hl, <- app_assoc.
      split; [done|]. split; [done|]. apply Forall_app. split.
      * apply (Forall_sublist_of _ k2 [j] Hk2). constructor; [|constructor].
        exists (nextJokeId s). split; [done|lia].
      * eapply Forall_impl; [exact Hcreated|]. intros j' (n & Hid' & Hn').
        exists n. split; [done|lia].
Qed.

Example older_deleted_fish_stays_deleted :
  allJokes (snd (Older.serve
    [Older.DELETE_jokes_id (Some "1"); Older.POST_jokes (ObjectBody fish) "Mon";
     Older.GET_jokes]
    (init [fish; pun])))
  = [pun; <["timestamp" := JStr "Mon"]> (<["id" := JNum 10000000]> fish)].
Proof. vm_compute. reflexivity. Qed.
